(** * Route discovery and differential probing: a shallow embedding

    The development follows the Python sources [extract_routes.py]
    (extraction, validity filter, canonicalisation) and [test_routes.py]
    (probing, response clustering).

    Conventions of the embedding:
    - a Python [str] is a Rocq [string]; a character is a code point below
      256 (the [ascii] type), which covers every literal the sources use;
    - a value that may be [None] is a [pyval];
    - code that can raise returns a [res], with the exception as a value;
    - the regular expressions of the sources are terms of [Regex.regex],
      interpreted by a backtracking matcher with Python's priorities
      (leftmost match, greedy and lazy repetition, ordered alternation). *)

From Stdlib Require Import ZArith List Ascii String Bool Lia Permutation Sorted.
From stdpp Require Import base option list gmap sets strings sorting.

(** ** Python values and exceptions *)

Inductive pyval :=
| PyNone
| PyStr (s : string).

(** An exception: its class name and [str(e)]. Every class below derives
    from [Exception]. *)
Record pyexn := PyExn { exn_class : string; exn_str : string }.

Inductive res (A : Type) :=
| Ok (a : A)
| Raise (e : pyexn).
Arguments Ok {A} a.
Arguments Raise {A} e.

Definition bind {A B} (c : res A) (f : A -> res B) : res B :=
  match c with
  | Ok a => f a
  | Raise e => Raise e
  end.

Notation "'let*' x ':=' c 'in' k" := (bind c (fun x => k))
  (at level 10, x name, c at level 100, k at level 200).

Definition TypeError (msg : string) : pyexn := PyExn "TypeError" msg.
Definition ValueError (msg : string) : pyexn := PyExn "ValueError" msg.

(** Python truthiness of a possibly-[None] string. *)
Definition truthy (v : pyval) : bool :=
  match v with
  | PyNone => false
  | PyStr "" => false
  | PyStr _ => true
  end.

(** ** String primitives of the Python [str] type *)

Module Str.

Definition dquote : ascii := "034".
Definition squote : ascii := "039".
Definition backslash : ascii := "092".
Definition newline : ascii := "010".

Definition chr_eqb (a b : ascii) : bool := Ascii.eqb a b.

Definition between (lo hi c : ascii) : bool :=
  (nat_of_ascii lo <=? nat_of_ascii c)%nat && (nat_of_ascii c <=? nat_of_ascii hi)%nat.

(** [c in chars] for a one-character [c]. *)
Fixpoint chr_in (c : ascii) (chars : string) : bool :=
  match chars with
  | EmptyString => false
  | String d t => chr_eqb c d || chr_in c t
  end.

(** [all(p(c) for c in s)] *)
Fixpoint all (p : ascii -> bool) (s : string) : bool :=
  match s with
  | EmptyString => true
  | String c t => p c && all p t
  end.

(** [str.lower] on one code point below 256: the letters A-Z and the
    Latin-1 capitals 0xC0-0xDE (0xD7, the multiplication sign, excepted). *)
Definition lower_chr (c : ascii) : ascii :=
  let n := nat_of_ascii c in
  if between "A" "Z" c then ascii_of_nat (n + 32)
  else if (192 <=? n)%nat && (n <=? 222)%nat && negb (n =? 215)%nat
       then ascii_of_nat (n + 32)
  else c.

Fixpoint lower (s : string) : string :=
  match s with
  | EmptyString => EmptyString
  | String c t => String (lower_chr c) (lower t)
  end.

(** [s.startswith(p)] *)
Definition startswith (s p : string) : bool := String.prefix p s.

(** [s.startswith((p1, p2, ...))] *)
Definition startswith_any (s : string) (ps : list string) : bool :=
  existsb (startswith s) ps.

(** [s.endswith(p)]: some suffix of [s] is [p]. *)
Fixpoint endswith (s p : string) : bool :=
  String.eqb s p ||
  match s with
  | EmptyString => false
  | String _ t => endswith t p
  end.

(** [s.lstrip(chars)] *)
Fixpoint lstrip (chars : string) (s : string) : string :=
  match s with
  | EmptyString => EmptyString
  | String c t => if chr_in c chars then lstrip chars t else s
  end.

(** [s.rstrip(chars)]: a character goes when it is in [chars] and
    everything after it goes too. *)
Fixpoint rstrip (chars : string) (s : string) : string :=
  match s with
  | EmptyString => EmptyString
  | String c t =>
      match rstrip chars t with
      | EmptyString => if chr_in c chars then EmptyString else String c EmptyString
      | r => String c r
      end
  end.

(** [s.replace(a, b)] for one-character [a] and [b]. *)
Fixpoint replace_chr (a b : ascii) (s : string) : string :=
  match s with
  | EmptyString => EmptyString
  | String c t => String (if chr_eqb c a then b else c) (replace_chr a b t)
  end.

(** [sep.join(l)] *)
Fixpoint join (sep : string) (l : list string) : string :=
  match l with
  | [] => EmptyString
  | [x] => x
  | x :: t => x +:+ sep +:+ join sep t
  end.

(** [s.split(sep)] for a non-empty [sep]: cut at every occurrence found
    scanning left to right; [skip] counts the characters of a separator
    still to be passed over. *)
Fixpoint split_go (sep : string) (skip : nat) (s : string) : list string :=
  match s with
  | EmptyString => [EmptyString]
  | String c t =>
      match skip with
      | S n => split_go sep n t
      | O =>
          if String.prefix sep s
          then EmptyString :: split_go sep (String.length sep - 1) t
          else match split_go sep 0 t with
               | x :: l => String c x :: l
               | [] => [String c EmptyString]
               end
      end
  end.

Definition split (sep s : string) : list string := split_go sep 0 s.

End Str.

(** ** Regular expressions, as the [re] module matches them *)

Module Regex.

(** The constructs the patterns of the sources use. Repetition applies to
    a character class only, as in those patterns. *)
Inductive regex :=
| Lit (l : string)                    (* a literal string *)
| Cls (p : ascii -> bool)             (* one character of a class *)
| Rep (greedy : bool) (lo : nat) (hi : option nat) (p : ascii -> bool)
                                      (* p{lo,hi}, p*, p+, p?, and the lazy forms *)
| Cat (r1 r2 : regex)
| Alt (r1 r2 : regex)                 (* r1|r2, r1 tried first *)
| Grp (i : nat) (r : regex)           (* capturing group number i *)
| Eol                                 (* $ *)
| Eps.

Infix "⋅" := Cat (at level 41, right associativity).

(** [(?:r)?] *)
Definition Opt (r : regex) : regex := Alt r Eps.

(** Character classes. [\s] and [\w] are the Unicode classes of a [str]
    pattern, on code points below 256. *)
Definition any (c : ascii) : bool := negb (Str.chr_eqb c Str.newline).       (* . *)
Definition quote (c : ascii) : bool :=
  Str.chr_eqb c Str.squote || Str.chr_eqb c Str.dquote.                      (* a quote of either kind *)
Definition not_quote (c : ascii) : bool := negb (quote c).                   (* anything but a quote *)
Definition not_slash (c : ascii) : bool := negb (Str.chr_eqb c "/").         (* [^/] *)
Definition alnum (c : ascii) : bool :=
  Str.between "a" "z" c || Str.between "A" "Z" c || Str.between "0" "9" c.  (* [a-zA-Z0-9] *)
Definition space (c : ascii) : bool :=
  let n := nat_of_ascii c in
  ((9 <=? n)%nat && (n <=? 13)%nat) || ((28 <=? n)%nat && (n <=? 32)%nat)
  || (n =? 133)%nat || (n =? 160)%nat.                                       (* \s *)
Definition word (c : ascii) : bool :=
  let n := nat_of_ascii c in
  alnum c || Str.chr_eqb c "_"
  || (n =? 170)%nat || (n =? 178)%nat || (n =? 179)%nat || (n =? 181)%nat
  || (n =? 185)%nat || (n =? 186)%nat || ((188 <=? n)%nat && (n <=? 190)%nat)
  || ((192 <=? n)%nat && (n <=? 214)%nat) || ((216 <=? n)%nat && (n <=? 246)%nat)
  || (248 <=? n)%nat.                                                        (* \w *)
Definition path_chr (c : ascii) : bool :=
  word c || Str.chr_in c "-./".                                              (* [\w\-./] *)

(** Captures: group [i] is at index [i - 1]; [None] for a group that
    took no part in the match. *)
Definition caps := list (option string).

Fixpoint ngroups (r : regex) : nat :=
  match r with
  | Cat r1 r2 | Alt r1 r2 => ngroups r1 + ngroups r2
  | Grp _ r1 => S (ngroups r1)
  | _ => 0
  end.

Fixpoint strip_prefix (l s : string) : option string :=
  match l with
  | EmptyString => Some s
  | String c l' =>
      match s with
      | String d s' => if Str.chr_eqb c d then strip_prefix l' s' else None
      | EmptyString => None
      end
  end.

(** The text of [s] before its suffix [t]. *)
Definition consumed (s t : string) : string :=
  String.substring 0 (String.length s - String.length t) s.

(** [$]: at the end, or before a newline that ends the string. *)
Definition at_eol (s : string) : bool :=
  match s with
  | EmptyString => true
  | String c EmptyString => Str.chr_eqb c Str.newline
  | _ => false
  end.

Definition room (hi : option nat) : bool :=
  match hi with
  | Some O => false
  | _ => true
  end.

Definition orelse {A} (a : option A) (b : unit -> option A) : option A :=
  match a with
  | Some x => Some x
  | None => b tt
  end.

Section Matcher.
Context {R : Type}.

(** A continuation receives the rest of the text and the captures. *)
Definition cont := string -> caps -> option R.

Fixpoint m_rep (greedy : bool) (p : ascii -> bool) (lo : nat) (hi : option nat)
    (s : string) (cs : caps) (k : cont) {struct s} : option R :=
  let stop := fun _ : unit => if (lo =? 0)%nat then k s cs else None in
  match s with
  | String c t =>
      if p c && room hi then
        let more := fun _ : unit => m_rep greedy p (pred lo) (pred <$> hi) t cs k in
        if greedy then orelse (more tt) stop else orelse (stop tt) more
      else stop tt
  | EmptyString => stop tt
  end.

Fixpoint m (r : regex) (s : string) (cs : caps) (k : cont) : option R :=
  match r with
  | Lit l => match strip_prefix l s with Some t => k t cs | None => None end
  | Cls p => match s with
             | String c t => if p c then k t cs else None
             | EmptyString => None
             end
  | Rep greedy lo hi p => m_rep greedy p lo hi s cs k
  | Cat r1 r2 => m r1 s cs (fun t cs' => m r2 t cs' k)
  | Alt r1 r2 => orelse (m r1 s cs k) (fun _ => m r2 s cs k)
  | Grp i r1 => m r1 s cs (fun t cs' => k t (<[pred i := Some (consumed s t)]> cs'))
  | Eol => if at_eol s then k s cs else None
  | Eps => k s cs
  end.
End Matcher.

(** [pattern.match] at the start of [s]: the rest of the text and the
    groups of the first match in priority order. *)
Definition match_here (r : regex) (s : string) : option (string * caps) :=
  m r s (replicate (ngroups r) None) (fun t cs => Some (t, cs)).

(** [re.search(r, s)] as a truth value. *)
Fixpoint search (r : regex) (s : string) : bool :=
  match match_here r s with
  | Some _ => true
  | None => match s with
            | EmptyString => false
            | String _ t => search r t
            end
  end.

(** [re.finditer(r, s)]: the groups of the successive non-overlapping
    matches, leftmost first. [skip] counts the characters of the last
    match still to be passed over. After a match of no character at all
    the scan moves on by one; the patterns of the sources cannot match
    that way. *)
Fixpoint finditer_go (r : regex) (skip : nat) (s : string) : list caps :=
  match skip with
  | S n => match s with
           | EmptyString => []
           | String _ t => finditer_go r n t
           end
  | O =>
      match match_here r s with
      | Some (t, cs) =>
          cs :: match s with
                | EmptyString => []
                | String _ s' =>
                    finditer_go r (pred (String.length s - String.length t)) s'
                end
      | None => match s with
                | EmptyString => []
                | String _ s' => finditer_go r 0 s'
                end
      end
  end.

Definition finditer (r : regex) (s : string) : list caps := finditer_go r 0 s.

(** [re.sub(r, repl, s)] for a replacement text without group references. *)
Fixpoint sub_go (r : regex) (repl : string) (skip : nat) (s : string) : string :=
  match skip with
  | S n => match s with
           | EmptyString => EmptyString
           | String _ t => sub_go r repl n t
           end
  | O =>
      match match_here r s with
      | Some (t, _) =>
          repl +:+ match s with
                   | EmptyString => EmptyString
                   | String c s' =>
                       match String.length s - String.length t with
                       | O => String c (sub_go r repl 0 s')
                       | S n => sub_go r repl n s'
                       end
                   end
      | None => match s with
                | EmptyString => EmptyString
                | String c s' => String c (sub_go r repl 0 s')
                end
      end
  end.

Definition sub (r : regex) (repl s : string) : string := sub_go r repl 0 s.

End Regex.

(** ** [sorted] and [list.sort]: a stable sort by key *)

Section PySorted.
Context {A K : Type} (key : A -> K) (le : K -> K -> bool).

(** [x] goes in front of the first element whose key is not below its
    own, hence in front of the elements of equal key. *)
Fixpoint insert_sorted (x : A) (l : list A) : list A :=
  match l with
  | [] => [x]
  | y :: l' => if le (key x) (key y) then x :: l else y :: insert_sorted x l'
  end.

(** Elements are inserted from the last to the first, so that elements
    of equal key keep the order they came in. *)
Definition py_sorted (l : list A) : list A := foldr insert_sorted [] l.
End PySorted.

(** ** extract_routes.py: the pattern catalogue, the validity filter and
    the extractor *)

Module ExtractRoutes.
Import Regex.

(** The three route kinds (the [type] strings of the source). *)
Inductive route_type := VueRoute | ReactRoute | GeneralRoute.

(** A route dictionary: the keys [type], [path] and [source_file] are
    always there, [name] only on routes of a two-group rule. *)
Record route_rec := Route {
  rt_type : route_type;
  rt_name : option pyval;
  rt_path : string;
  rt_source_file : string
}.

Definition star (p : ascii -> bool) : regex := Rep true 0 None p.
Definition plus (p : ascii -> bool) : regex := Rep true 1 None p.
Definition lazy_star (p : ascii -> bool) : regex := Rep false 0 None p.
Definition lazy_plus (p : ascii -> bool) : regex := Rep false 1 None p.
Definition chr (d : ascii) (c : ascii) : bool := Str.chr_eqb c d.

Definition vue_patterns : list regex := [
  (* path:\s*[quote](.*?)[quote] *)
  Lit "path:" ⋅ star space ⋅ Cls quote ⋅ Grp 1 (lazy_star any) ⋅ Cls quote;
  (* name:\s*[quote](.*?)[quote].*?path:\s*[quote](.*?)[quote] *)
  Lit "name:" ⋅ star space ⋅ Cls quote ⋅ Grp 1 (lazy_star any) ⋅ Cls quote
    ⋅ lazy_star any
    ⋅ Lit "path:" ⋅ star space ⋅ Cls quote ⋅ Grp 2 (lazy_star any) ⋅ Cls quote;
  (* path:\s*[quote](.*?/:\w+.*?)[quote]* *)
  Lit "path:" ⋅ star space ⋅ Cls quote
    ⋅ Grp 1 (lazy_star any ⋅ Lit "/:" ⋅ plus word ⋅ lazy_star any)
    ⋅ star quote
].

Definition react_patterns : list regex := [
  (* <Route\s+path=[quote](.*?)[quote]\s* *)
  Lit "<Route" ⋅ plus space ⋅ Lit "path=" ⋅ Cls quote ⋅ Grp 1 (lazy_star any)
    ⋅ Cls quote ⋅ star space;
  (* (?:useNavigate|history\.push)\([quote](.*?)[quote]\) *)
  Alt (Lit "useNavigate") (Lit "history.push") ⋅ Lit "(" ⋅ Cls quote
    ⋅ Grp 1 (lazy_star any) ⋅ Cls quote ⋅ Lit ")";
  (* <Link\s+to=[quote](.*?)[quote]\s* *)
  Lit "<Link" ⋅ plus space ⋅ Lit "to=" ⋅ Cls quote ⋅ Grp 1 (lazy_star any)
    ⋅ Cls quote ⋅ star space
].

Definition general_patterns : list regex := [
  (* (?:url|endpoint|api):\s*[quote](/[^quote]*?)[quote]\s* *)
  Alt (Lit "url") (Alt (Lit "endpoint") (Lit "api")) ⋅ Lit ":" ⋅ star space
    ⋅ Cls quote ⋅ Grp 1 (Lit "/" ⋅ lazy_star not_quote) ⋅ Cls quote ⋅ star space;
  (* (?:axios|fetch)\([quote]((?:/|https?://)[^quote]*?)[quote] *)
  Alt (Lit "axios") (Lit "fetch") ⋅ Lit "(" ⋅ Cls quote
    ⋅ Grp 1 (Alt (Lit "/") (Lit "http" ⋅ Rep true 0 (Some 1) (chr "s") ⋅ Lit "://")
             ⋅ lazy_star not_quote)
    ⋅ Cls quote;
  (* [quote](/[\w\-./]+?)[quote] *)
  Cls quote ⋅ Grp 1 (Lit "/" ⋅ lazy_plus path_chr) ⋅ Cls quote
].

Definition invalid_paths : list string := ["/"; "//"; "."; "./"]%string.

Definition static_extensions : list string := [
  ".png"; ".jpg"; ".jpeg"; ".gif"; ".svg"; ".ico"; ".webp";
  ".css"; ".scss"; ".less";
  ".js"; ".jsx"; ".ts"; ".tsx";
  ".woff"; ".woff2"; ".ttf"; ".eot"; ".otf";
  ".mp3"; ".mp4"; ".avi"; ".mov"; ".flv"; ".wmv"
]%string.

(** The file-name pattern, spaced out:
    /  [^/]+  \.  [a-zA-Z0-9]{2,6}  (?: \? .* )?  $ *)
Definition file_name_re : regex :=
  Lit "/" ⋅ plus not_slash ⋅ Lit "." ⋅ Rep true 2 (Some 6) alnum
    ⋅ Opt (Lit "?" ⋅ star any) ⋅ Eol.

Definition schemes : list string := ["http://"; "https://"; "ws://"; "wss://"]%string.

(** [v in a_set_of_strings]: [None] is hashable and is in no such set. *)
Definition in_strings (v : pyval) (l : list string) : bool :=
  match v with
  | PyNone => false
  | PyStr s => existsb (String.eqb s) l
  end.

(** Iterating over a value: a string gives its characters, [None] raises. *)
Definition iter (v : pyval) : res string :=
  match v with
  | PyNone => Raise (TypeError "'NoneType' object is not iterable")
  | PyStr s => Ok s
  end.

Definition is_valid_route (route_path : pyval) : res bool :=
  if in_strings route_path invalid_paths then Ok false else
  let* s := iter route_path in
  if Str.all (fun c => Str.chr_in c "./\") s then Ok false else
  if existsb (fun ext => Str.endswith (Str.lower s) ext) static_extensions
  then Ok false else
  if search file_name_re s then Ok false else
  Ok true.

(** [match.group(i)] *)
Definition group (cs : caps) (i : nat) : res pyval :=
  match i with
  | O => Raise (PyExn "IndexError" "no such group")
  | S j =>
      match cs !! j with
      | Some (Some s) => Ok (PyStr s)
      | Some None => Ok PyNone
      | None => Raise (PyExn "IndexError" "no such group")
      end
  end.

Section Extract.
(** The text of the file and its path relative to the base directory. *)
Variable content : string.
Variable relative_path : string.

Definition source_file : string :=
  Str.replace_chr Str.backslash "/" relative_path.

(** The body of the loop over the matches of one pattern. [cs] holds
    the groups of the match, one entry per group of the pattern. A
    valid path is a string: on [None] the filter has raised. *)
Definition on_match (route_type : route_type) (routes : list route_rec)
    (cs : caps) : res (list route_rec) :=
  if (1 <? length cs)%nat then
    let* route_name := group cs 1 in
    let* route_path := group cs 2 in
    let* valid := is_valid_route route_path in
    match valid, route_path with
    | true, PyStr p =>
        Ok (routes ++ [Route route_type (Some route_name) p source_file])
    | _, _ => Ok routes
    end
  else
    let* route_path := group cs 1 in
    match route_path with
    | PyStr p =>
        if truthy route_path && negb (Str.startswith_any p schemes) then
          let* valid := is_valid_route route_path in
          if valid then Ok (routes ++ [Route route_type None p source_file])
          else Ok routes
        else Ok routes
    | PyNone => Ok routes
    end.

Fixpoint for_each {A S} (f : S -> A -> res S) (l : list A) (s : S) : res S :=
  match l with
  | [] => Ok s
  | a :: l' => let* s' := f s a in for_each f l' s'
  end.

Definition extract_with_patterns (patterns : list regex)
    (route_type : route_type) (routes : list route_rec) : res (list route_rec) :=
  for_each (fun routes pattern =>
              for_each (on_match route_type) (finditer pattern content) routes)
           patterns routes.

Definition extract_routes_from_js : res (list route_rec) :=
  let* routes := extract_with_patterns vue_patterns VueRoute [] in
  let* routes := extract_with_patterns react_patterns ReactRoute routes in
  extract_with_patterns general_patterns GeneralRoute routes.
End Extract.

(** *** Reading a directory of sources *)

(** One source file: its key in the result (the path relative to the
    directory), its path relative to the base directory, and its text,
    or the exception that reading it raised. *)
Record js_file := JsFile {
  jf_key : string;
  jf_relative_path : string;
  jf_content : res string
}.

(** An insertion-ordered dictionary with string keys. *)
Definition dict (V : Type) := list (string * V).

Fixpoint dict_get {V} (k : string) (d : dict V) : option V :=
  match d with
  | [] => None
  | (k', v) :: d' => if String.eqb k k' then Some v else dict_get k d'
  end.

(** [d[k] = v]: in place when the key is there, at the end otherwise. *)
Fixpoint dict_set {V} (k : string) (v : V) (d : dict V) : dict V :=
  match d with
  | [] => [(k, v)]
  | (k', v') :: d' =>
      if String.eqb k k' then (k', v) :: d' else (k', v') :: dict_set k v d'
  end.

Definition dict_values {V} (d : dict V) : list V := map snd d.

(** A failure on one file leaves that file out; the run goes on. *)
Definition process_js_files (files : list js_file) : dict (list route_rec) :=
  foldl (fun all_routes f =>
           match (let* content := jf_content f in
                  extract_routes_from_js content (jf_relative_path f)) with
           | Ok (r :: routes) =>
               dict_set (jf_key f)
                 (default [] (dict_get (jf_key f) all_routes) ++ r :: routes)
                 all_routes
           | Ok [] => all_routes
           | Raise _ => all_routes
           end)
        [] files.

(** *** Canonicalisation *)

(** /+ *)
Definition slashes_re : regex := plus (chr "/").

Definition normalize_path (path : string) : string :=
  let path := sub slashes_re "/" path in
  if (1 <? String.length path)%nat && Str.endswith path "/"
  then Str.rstrip "/" path
  else path.

Definition set_path (p : string) (r : route_rec) : route_rec :=
  Route (rt_type r) (rt_name r) p (rt_source_file r).
Definition set_source_file (s : string) (r : route_rec) : route_rec :=
  Route (rt_type r) (rt_name r) (rt_path r) s.
Definition set_name (n : pyval) (r : route_rec) : route_rec :=
  Route (rt_type r) (Some n) (rt_path r) (rt_source_file r).

(** [sorted(a_set_of_strings)] *)
Definition sorted_strings (s : gset string) : list string :=
  py_sorted id String.leb (elements s).

(** The update of the record already stored for the path of [route]. *)
Definition merge_into (existing route : route_rec) : route_rec :=
  let existing_sources : gset string :=
    list_to_set (Str.split ", " (rt_source_file existing)) in
  let new_source := rt_source_file route in
  let existing :=
    if decide (new_source ∈ existing_sources) then existing
    else set_source_file
           (Str.join ", " (sorted_strings (existing_sources ∪ {[new_source]})))
           existing in
  match rt_name route with
  | Some n =>
      match rt_name existing with
      | None => set_name n existing
      | Some n' => if truthy n' then existing else set_name n existing
      end
  | None => existing
  end.

(** The body of the loop over the routes. Each route dictionary of the
    input is a distinct object, as [process_js_files] builds them. *)
Definition add_route (unique_routes : dict route_rec) (route : route_rec) : dict route_rec :=
  let path := normalize_path (rt_path route) in
  let route := set_path path route in
  match dict_get path unique_routes with
  | None => dict_set path route unique_routes
  | Some existing => dict_set path (merge_into existing route) unique_routes
  end.

Definition unique_routes_of (routes : dict (list route_rec)) : dict route_rec :=
  foldl add_route [] (concat (dict_values routes)).

(** The list that [save_routes_to_file] writes out as JSON. *)
Definition save_routes_to_file (routes : dict (list route_rec)) : list route_rec :=
  py_sorted rt_path String.leb (dict_values (unique_routes_of routes)).

End ExtractRoutes.

(** ** test_routes.py: probing and the analysis of the results *)

Module TestRoutes.

(** What [requests.get] hands back: the status code, the body, the
    [Content-Length] header when there is one, and the elapsed time (in
    microseconds, the resolution of [timedelta]). *)
Record response := Response {
  status_code : Z;
  content : string;
  content_length_header : option string;
  elapsed : Z
}.

(** A result dictionary; [error] is there on a failed probe only. *)
Record probe_result := ProbeResult {
  pr_url : string;
  pr_status_code : Z;
  pr_content_length : Z;
  pr_response_time : Z;
  pr_error : option string
}.

Section Probe.
(** The library calls the probe makes: [urllib.parse.urljoin], which
    raises [ValueError] on a malformed URL, [requests.get] with its
    timeout and without certificate checks, which answers or raises,
    and the builtin [int] on the text of a header. *)
Variable urljoin : string -> string -> res string.
Variable requests_get : string -> res response.
Variable int : string -> res Z.

Definition failed (url : string) (e : pyexn) : probe_result :=
  ProbeResult url 0 0 0 (Some (exn_str e)).

Definition test_route (base_url path : string) : res probe_result :=
  let* url := urljoin (Str.rstrip "/" base_url +:+ "/") (Str.lstrip "/" path) in
  (* try: *)
  match (let* response := requests_get url in
         let* content_length :=
           match content_length_header response with
           | Some h => int h
           | None => Ok (Z.of_nat (String.length (content response)))
           end in
         Ok (ProbeResult url (status_code response) content_length
               (elapsed response) None)) with
  | Ok result => Ok result
  (* except Exception as e: *)
  | Raise e => Ok (failed url e)
  end.

(** The worker pool of [main]: one task per path, and the results
    gathered with [future.result()], which raises what the task raised.
    [all_paths] lists the paths in the order the tasks complete. *)
Fixpoint probe_all (base_url : string) (all_paths : list string)
    : res (list probe_result) :=
  match all_paths with
  | [] => Ok []
  | path :: rest =>
      let* result := test_route base_url path in
      let* results := probe_all base_url rest in
      Ok (result :: results)
  end.
End Probe.

(** The histogram of the content lengths, a [defaultdict(int)]. *)
Definition count_length (length_count : gmap Z nat) (result : probe_result)
    : gmap Z nat :=
  <[pr_content_length result :=
      S (default 0%nat (length_count !! pr_content_length result))]> length_count.

Definition length_count_of (results : list probe_result) : gmap Z nat :=
  foldl count_length ∅ results.

Definition unique_lengths_of (length_count : gmap Z nat) : gset Z :=
  dom (filter (fun kv => (1 <= kv.2 <= 5)%nat) length_count).

(** The grouping by status code, a [defaultdict(list)]. *)
Definition group_non_404 (non_404_pages : gmap Z (list probe_result))
    (result : probe_result) : gmap Z (list probe_result) :=
  if decide (pr_status_code result ≠ 404%Z)
  then <[pr_status_code result :=
           default [] (non_404_pages !! pr_status_code result) ++ [result]]>
         non_404_pages
  else non_404_pages.

Definition analyze_results (results : list probe_result)
    : list probe_result * gmap Z (list probe_result) :=
  let length_count := length_count_of results in
  let unique_lengths := unique_lengths_of length_count in
  let unique_pages :=
    filter (fun result => pr_content_length result ∈ unique_lengths) results in
  let unique_pages := py_sorted pr_content_length Z.leb unique_pages in
  let non_404_pages := foldl group_non_404 ∅ results in
  (unique_pages, non_404_pages).

End TestRoutes.

(** ** The callers: the summaries of the [main] functions and the lookups
    of main.py *)

Module Tools.
Import ExtractRoutes TestRoutes.

(** *** The statistics printed after an extraction *)

(** [sum(len(file_routes) for file_routes in routes.values())] *)
Definition total_routes (routes : dict (list route_rec)) : nat :=
  foldl (fun n file_routes => n + length file_routes)%nat 0%nat (dict_values routes).

Global Instance route_type_eq_dec : EqDecision route_type.
Proof. solve_decision. Defined.

(** [route_types[t] += 1] on a [defaultdict(int)], kept in insertion
    order, the order in which the distribution is printed. *)
Fixpoint incr (t : route_type) (route_types : list (route_type * nat))
    : list (route_type * nat) :=
  match route_types with
  | [] => [(t, 1%nat)]
  | (t', n) :: rest =>
      if decide (t = t') then (t', S n) :: rest else (t', n) :: incr t rest
  end.

Definition route_types_of (routes : dict (list route_rec))
    : list (route_type * nat) :=
  foldl (fun route_types file_routes =>
           foldl (fun route_types route => incr (rt_type route) route_types)
                 route_types file_routes)
        [] (dict_values routes).

(** *** The paths to probe *)

(** The objects of a routes file, each reduced to its [path] entry, if
    it has one. *)
Definition routes_data_t := list (option string).

(** [all_paths] of [main]: the set of the paths of the objects that have
    one. *)
Definition all_paths_of (routes_data : routes_data_t) : gset string :=
  foldl (fun all_paths route =>
           match route with
           | Some path => all_paths ∪ {[path]}
           | None => all_paths
           end)
        ∅ routes_data.

(** *** Looking a route up in a routes file *)

(** [[route for route in routes_data if route.get('path') == route_path]],
    as the positions of the matching objects. *)
Definition matching_routes (routes_data : routes_data_t) (route_path : string)
    : list (option string) :=
  filter (fun route => route = Some route_path) routes_data.

(** The characters [str.strip()] removes, among the code points below
    256. *)
Definition whitespace : string :=
  string_of_list_ascii
    (ascii_of_nat <$> [9; 10; 11; 12; 13; 28; 29; 30; 31; 32; 133; 160]%nat).

Definition strip (s : string) : string :=
  Str.rstrip whitespace (Str.lstrip whitespace s).

(** [[s.strip() for s in source_file.split(',')]] *)
Definition source_files_of (source_file : string) : list string :=
  strip <$> Str.split "," source_file.

(** [range(a, b)] *)
Definition py_range (a b : Z) : list Z :=
  (fun i => (a + Z.of_nat i)%Z) <$> seq 0 (Z.to_nat (b - a)).

(** The indices of the lines shown around a match on line [line_number]
    (counted from 1) of a file of [total_lines] lines. *)
Definition start_line (line_number context_lines : Z) : Z :=
  Z.max 1 (line_number - context_lines).
Definition end_line (line_number context_lines total_lines : Z) : Z :=
  Z.min total_lines (line_number + context_lines).
Definition shown_lines (line_number context_lines total_lines : Z) : list Z :=
  py_range (start_line line_number context_lines - 1)
           (end_line line_number context_lines total_lines).

End Tools.

(** ** getjs.py: the references to further scripts in a downloaded text *)

Module GetJs.
Import Regex ExtractRoutes.

(** The four patterns share their group: a text without a quote, taken
    lazily, that ends in [.js]. *)
Definition script_name : regex := lazy_star not_quote ⋅ Lit ".js".

Definition patterns : list regex := [
  (* (?:src|href)=[quote]([^quote]*?\.js)[quote] *)
  Alt (Lit "src") (Lit "href") ⋅ Lit "=" ⋅ Cls quote ⋅ Grp 1 script_name ⋅ Cls quote;
  (* import.*?[quote]([^quote]*?\.js)[quote] *)
  Lit "import" ⋅ lazy_star any ⋅ Cls quote ⋅ Grp 1 script_name ⋅ Cls quote;
  (* require\([quote]([^quote]*?\.js)[quote] *)
  Lit "require(" ⋅ Cls quote ⋅ Grp 1 script_name ⋅ Cls quote;
  (* loadScript\([quote]([^quote]*?\.js)[quote] *)
  Lit "loadScript(" ⋅ Cls quote ⋅ Grp 1 script_name ⋅ Cls quote
].

(** [re.findall] for a pattern with one group: the text of the group,
    match by match; the empty string for a group that took no part. *)
Definition findall (r : regex) (s : string) : list string :=
  (fun cs : caps => match cs with
                    | Some w :: _ => w
                    | _ => EmptyString
                    end) <$> finditer r s.

Section Urls.
(** [urllib.parse.urljoin], which raises [ValueError] on a malformed URL. *)
Variable urljoin : string -> string -> res string.

Definition extract_js_urls_from_content (content base_url : string)
    : res (gset string) :=
  for_each (fun js_urls pattern =>
              for_each (fun js_urls match_ =>
                          let* full_url := urljoin base_url match_ in
                          Ok (js_urls ∪ {[full_url]}))
                       (findall pattern content) js_urls)
           patterns ∅.
End Urls.

End GetJs.

Import Regex ExtractRoutes TestRoutes Tools GetJs.

(** * Notions used in the statements *)

(** A route without a name comes from the one-group branch; such a route
    is to carry no network scheme. *)
Definition scheme_free (r : route_rec) : Prop :=
  rt_name r = None -> Str.startswith_any (rt_path r) schemes = false.

(** The order of two elements by their sort keys. *)
Definition key_le {A K} (key : A -> K) (le : K -> K -> bool) (x y : A) : Prop :=
  le (key x) (key y) = true.

Definition is_slash (c : ascii) : bool := Str.chr_eqb c "/".

(** The length of the run of separators a text starts with, and the text
    after that run. *)
Fixpoint run (s : string) : nat :=
  match s with
  | String c t => if is_slash c then S (run t) else 0
  | EmptyString => 0
  end.

Fixpoint after_run (s : string) : string :=
  match s with
  | String c t => if is_slash c then after_run t else s
  | EmptyString => EmptyString
  end.

(** Normalisation in the words of the specification. Each run of
    separators becomes one: a separator that follows a separator is
    dropped ([after_slash] tells whether the previous character was one). *)
Fixpoint collapse_runs (after_slash : bool) (s : string) : string :=
  match s with
  | EmptyString => EmptyString
  | String c t =>
      if is_slash c
      then if after_slash then collapse_runs true t
           else String c (collapse_runs true t)
      else String c (collapse_runs false t)
  end.

Fixpoint drop_last (s : string) : string :=
  match s with
  | EmptyString => EmptyString
  | String c EmptyString => EmptyString
  | String c t => String c (drop_last t)
  end.

(** A trailing separator goes, unless the path is the root separator. *)
Definition strip_trailing_separator (s : string) : string :=
  if String.eqb s "/" then s
  else if Str.endswith s "/" then drop_last s
  else s.

Definition normalize_spec (path : string) : string :=
  strip_trailing_separator (collapse_runs false path).

Fixpoint no_adjacent_slashes (s : string) : bool :=
  match s with
  | String c t =>
      match t with
      | String d _ => negb (is_slash c && is_slash d) && no_adjacent_slashes t
      | EmptyString => true
      end
  | EmptyString => true
  end.

(** The candidates of a run, in the order the canonicaliser visits them. *)
Definition candidates (routes : dict (list route_rec)) : list route_rec :=
  concat (dict_values routes).

(** The record stored for path [p] once the candidates [l] are merged. *)
Definition record_at (p : string) (l : list route_rec) : option route_rec :=
  dict_get p (foldl add_route [] l).

(** A record that the merge treats as unnamed: it has no [name] key, or
    a name that is not truthy (the empty string, [None]). *)
Definition counts_as_unnamed (e : route_rec) : Prop :=
  match rt_name e with
  | None => True
  | Some n => truthy n = false
  end.

(** What one more candidate does to the record stored for path [p]. *)
Definition record_step (p : string) (o : option route_rec) (r : route_rec)
    : option route_rec :=
  if String.eqb p (normalize_path (rt_path r)) then
    Some (match o with
          | None => set_path p r
          | Some existing => merge_into existing (set_path p r)
          end)
  else o.

(** A source name that [split] leaves whole: it holds no separator. *)
Definition sep_free (s : string) : Prop := Str.split ", " s = [s].

(** The sources of the candidates whose path normalises to [p]. *)
Definition sources_of (p : string) (l : list route_rec) : gset string :=
  list_to_set (rt_source_file <$>
               filter (fun r => normalize_path (rt_path r) = p) l).

(** The keys are distinct, and each record sits under its own path. *)
Definition well_keyed (d : dict route_rec) : Prop :=
  NoDup d.*1 /\ Forall (fun kv => rt_path kv.2 = kv.1) d.

(** The number of results of content length [l]. *)
Definition occurrences (l : Z) (results : list probe_result) : nat :=
  length (filter (fun r => pr_content_length r = l) results).

(** A result whose content length is shared by one to five results. *)
Definition interesting (results : list probe_result) (r : probe_result) : Prop :=
  (1 <= occurrences (pr_content_length r) results <= 5)%nat.

Global Instance interesting_dec results r : Decision (interesting results r).
Proof. unfold interesting. apply _. Defined.

(** Nine results with the content lengths of the specification's
    clustering example, told apart by their URLs. *)
Definition page (url : string) (l : Z) : probe_result :=
  ProbeResult url 200 l 0 None.

Definition clustering_example : list probe_result :=
  [page "/a" 100; page "/b" 100; page "/c" 100; page "/d" 100; page "/e" 100;
   page "/f" 100; page "/g" 42; page "/h" 42; page "/i" 7].

(** What [urljoin] answers on the inputs of the examples below: it
    raises on a base whose host is an opening bracket with no closing
    one, and appends a plain relative path to a base that ends in a
    separator. *)
Definition urljoin_sample (base url : string) : res string :=
  if String.eqb base "http://[/" then Raise (ValueError "Invalid IPv6 URL")
  else Ok (base +:+ url).

(** A network on which every request fails. *)
Definition requests_get_refused (url : string) : res response :=
  Raise (PyExn "ConnectionError" "connection refused").

Definition int_sample (h : string) : res Z :=
  Raise (ValueError "invalid literal for int()").

(** [route_types.get(t, 0)] *)
Fixpoint counted (t : route_type) (route_types : list (route_type * nat)) : nat :=
  match route_types with
  | [] => 0
  | (t', n) :: rest => if decide (t = t') then n else counted t rest
  end.

(** A text without its separators. *)
Fixpoint drop_slashes (s : string) : string :=
  match s with
  | EmptyString => EmptyString
  | String c t => if is_slash c then drop_slashes t else String c (drop_slashes t)
  end.

Definition starts_with_slash (s : string) : bool :=
  match s with
  | String c _ => is_slash c
  | EmptyString => false
  end.

(** The first candidate of [l] whose path normalises to [p]. *)
Definition first_candidate (p : string) (l : list route_rec) : option route_rec :=
  head (filter (fun r => normalize_path (rt_path r) = p) l).

(** The groups a match of [r] always sets: those that are under no
    alternative. *)
Fixpoint must (r : regex) : list nat :=
  match r with
  | Cat r1 r2 => must r1 ++ must r2
  | Grp i r1 => i :: must r1
  | _ => []
  end.

(** Group [j + 1] took part in the match. *)
Definition is_set (cs : list (option string)) (j : nat) : Prop :=
  exists s, cs !! j = Some (Some s).

(** Every group of the pattern is one that a match always sets. *)
Definition sets_all_groups (r : regex) : bool :=
  forallb (fun i => bool_decide (i ∈ must r)) (seq 1 (ngroups r))
  && (1 <=? ngroups r)%nat.

(** The captures [cs'] extend [cs]: as many entries, what was set stays
    set, and the groups of [r] within range are set. *)
Definition extends (r : regex) (cs cs' : caps) : Prop :=
  length cs' = length cs
  /\ (forall j, is_set cs j -> is_set cs' j)
  /\ (forall i, i ∈ must r -> (1 <= i <= length cs)%nat -> is_set cs' (pred i)).

(** What the extractor stores for a file: its routes, or nothing when
    reading or extracting raised. *)
Definition routes_of_file (f : js_file) : list route_rec :=
  match (let* content := jf_content f in
         extract_routes_from_js content (jf_relative_path f)) with
  | Ok routes => routes
  | Raise _ => []
  end.

(** A source name that holds no comma, and one that [strip] leaves as it
    is. *)
Definition comma_free (s : string) : Prop := Str.split "," s = [s].
Definition stripped (s : string) : Prop := strip s = s.

(** What [json.load] gives back for an inventory that [json.dump] wrote,
    each object reduced to its [path] entry. *)
Definition loaded (inventory : list route_rec) : routes_data_t :=
  Some ∘ rt_path <$> inventory.

(** The text holds no dot. *)
Definition dot_free (s : string) : Prop := Str.chr_in "." s = false.

(** The texts a pattern matches. Repetition takes characters of its
    class, within its bounds; [Eol] takes nothing. *)
Inductive matches : regex -> string -> Prop :=
| matches_Lit l : matches (Lit l) l
| matches_Cls (p : ascii -> bool) c : p c = true -> matches (Cls p) (String c EmptyString)
| matches_Rep greedy lo hi (p : ascii -> bool) w :
    Str.all p w = true -> (lo <= String.length w)%nat ->
    (forall h, hi = Some h -> (String.length w <= h)%nat) ->
    matches (Rep greedy lo hi p) w
| matches_Cat r1 r2 w1 w2 :
    matches r1 w1 -> matches r2 w2 -> matches (Cat r1 r2) (w1 +:+ w2)
| matches_Alt_l r1 r2 w : matches r1 w -> matches (Alt r1 r2) w
| matches_Alt_r r1 r2 w : matches r2 w -> matches (Alt r1 r2) w
| matches_Grp i r w : matches r w -> matches (Grp i r) w
| matches_Eol : matches Eol EmptyString
| matches_Eps : matches Eps EmptyString.

(** A route of the generic kind whose path is relative to the origin and
    holds no quote. *)
Definition origin_relative (r : route_rec) : Prop :=
  rt_type r = GeneralRoute ->
  starts_with_slash (rt_path r) = true /\ Str.all not_quote (rt_path r) = true.

(** * Properties *)

(** ** The primitives on a few inputs *)

Example split_two : Str.split ", " "a.js, b.js" = ["a.js"; "b.js"]%string.
Proof. reflexivity. Qed.

Example split_empty : Str.split ", " "" = [""]%string.
Proof. reflexivity. Qed.

Example rstrip_slashes : Str.rstrip "/" "/a/b//" = "/a/b"%string.
Proof. reflexivity. Qed.

Example endswith_lower : Str.endswith (Str.lower "/x/Logo.PNG") ".png" = true.
Proof. reflexivity. Qed.

(** The filter on the paths of the specification's examples. *)
Example filter_examples :
  map is_valid_route
      [PyStr "/app/logo.png"; PyStr "/api/users/:id"; PyStr "/";
       PyStr "/static/chunk.abc123.js"]
  = [Ok false; Ok true; Ok false; Ok false].
Proof. vm_compute. reflexivity. Qed.

(** ** The validity filter *)

Lemma is_valid_route_str (s : string) : exists b, is_valid_route (PyStr s) = Ok b.
Proof.
  unfold is_valid_route.
  destruct (in_strings _ _); [eauto|]. simpl.
  repeat match goal with |- context [if ?c then _ else _] => destruct c end; eauto.
Qed.

(** C2, as the code has it: the filter gives a verdict on every string,
    the empty one (rejected) and arbitrary text included; an absent group
    is kept away from the filter by the guard of the one-group branch,
    which drops the match. *)
Theorem is_valid_route_total_on_strings :
  (forall s : string, exists b, is_valid_route (PyStr s) = Ok b)
  /\ is_valid_route (PyStr "") = Ok false
  /\ (forall relative_path route_type routes,
        on_match relative_path route_type routes [None] = Ok routes).
Proof.
  split; [exact is_valid_route_str|]. split; reflexivity.
Qed.

(** C2, as stated, fails on [None]: iterating over it raises. *)
Lemma is_valid_route_None_raises : ~ exists b, is_valid_route PyNone = Ok b.
Proof. intros [b Hb]. discriminate Hb. Qed.

Example is_valid_route_None :
  is_valid_route PyNone = Raise (TypeError "'NoneType' object is not iterable").
Proof. reflexivity. Qed.

(** ** The extractor and network schemes *)

Lemma for_each_invariant {A S} (P : S -> Prop) (f : S -> A -> res S) :
  (forall s a s', P s -> f s a = Ok s' -> P s') ->
  forall l s s', P s -> for_each f l s = Ok s' -> P s'.
Proof.
  intros Hf l. induction l as [|a l IH]; intros s s' Hs Hrun; simpl in Hrun.
  - by inversion Hrun; subst.
  - destruct (f s a) as [s1|e] eqn:Hfa; cbn [bind] in Hrun; [|done].
    eapply IH; [|exact Hrun]. eapply Hf; eauto.
Qed.

Lemma on_match_scheme_free relative_path route_type routes cs routes' :
  Forall scheme_free routes ->
  on_match relative_path route_type routes cs = Ok routes' ->
  Forall scheme_free routes'.
Proof.
  intros Hall. unfold on_match.
  destruct (1 <? length cs)%nat.
  - destruct (group cs 1) as [route_name|]; cbn [bind]; [|done].
    destruct (group cs 2) as [route_path|]; cbn [bind]; [|done].
    destruct (is_valid_route route_path) as [[|]|]; cbn [bind]; [| |done].
    + destruct route_path; intros [= <-]; [done|].
      apply Forall_app; split; [done|]. by repeat constructor.
    + by intros [= <-].
  - destruct (group cs 1) as [[|p]|]; cbn [bind]; [by intros [= <-]| |done].
    destruct (truthy (PyStr p) && negb (Str.startswith_any p schemes)) eqn:Hguard;
      [|by intros [= <-]].
    destruct (is_valid_route (PyStr p)) as [[|]|]; cbn [bind]; [| |done].
    + intros [= <-]. apply Forall_app; split; [done|].
      repeat constructor. intros _. simpl.
      apply andb_true_iff in Hguard as [_ Hs]. by apply negb_true_iff in Hs.
    + by intros [= <-].
Qed.

Lemma extract_with_patterns_scheme_free content relative_path patterns route_type
    routes routes' :
  Forall scheme_free routes ->
  extract_with_patterns content relative_path patterns route_type routes = Ok routes' ->
  Forall scheme_free routes'.
Proof.
  unfold extract_with_patterns. intros Hall.
  apply (for_each_invariant (Forall scheme_free)); [|done].
  intros s pattern s' Hs.
  apply (for_each_invariant (Forall scheme_free)); [|done].
  intros ? ? ?. apply on_match_scheme_free.
Qed.

(** The part of C1 that holds: no route of a one-group rule starts with
    a network scheme. *)
Lemma one_group_routes_scheme_free content relative_path routes :
  extract_routes_from_js content relative_path = Ok routes ->
  Forall scheme_free routes.
Proof.
  unfold extract_routes_from_js.
  destruct (extract_with_patterns _ _ vue_patterns _ _) as [r1|] eqn:H1;
    cbn [bind]; [|done].
  destruct (extract_with_patterns _ _ react_patterns _ _) as [r2|] eqn:H2;
    cbn [bind]; [|done].
  intros H3.
  eapply extract_with_patterns_scheme_free in H1; [|constructor].
  eapply extract_with_patterns_scheme_free in H2; [|done].
  eapply extract_with_patterns_scheme_free in H3; done.
Qed.

(** C1 on the two-group rule: the branch for named routes asks the
    filter only, and the filter lets an absolute URL through. The one
    route extracted from this text starts with [http://]. *)
Theorem named_route_keeps_scheme :
  extract_routes_from_js "{ name: 'home', path: 'http://example.com/admin' }" "a.js"
  = Ok [Route VueRoute (Some (PyStr "home")) "http://example.com/admin" "a.js"]
  /\ Str.startswith_any "http://example.com/admin" schemes = true.
Proof. split; vm_compute; reflexivity. Qed.

(** ** The stable sort *)

Section PySortedFacts.
Context {A K : Type} `{EqDecision K} (key : A -> K) (le : K -> K -> bool).
Hypothesis le_total : forall a b, le a b = true \/ le b a = true.

Local Abbreviation key_le := (key_le key le).

Lemma insert_sorted_Permutation x l : insert_sorted key le x l ≡ₚ x :: l.
Proof.
  induction l as [|y l IH]; simpl; [done|].
  destruct (le (key x) (key y)); [done|].
  rewrite IH. apply Permutation_swap.
Qed.

Lemma py_sorted_Permutation l : py_sorted key le l ≡ₚ l.
Proof.
  induction l as [|x l IH]; simpl; [done|].
  unfold py_sorted in IH. by rewrite insert_sorted_Permutation, IH.
Qed.

Lemma insert_sorted_HdRel a x l :
  key_le a x -> HdRel key_le a l -> HdRel key_le a (insert_sorted key le x l).
Proof.
  intros Hax Hal. destruct l as [|y l]; simpl; [by constructor|].
  destruct (le (key x) (key y)); constructor; [done|].
  by inversion Hal.
Qed.

Lemma insert_sorted_Sorted x l :
  Sorted key_le l -> Sorted key_le (insert_sorted key le x l).
Proof.
  induction 1 as [|y l Hl IH Hy]; simpl; [by repeat constructor|].
  destruct (le (key x) (key y)) eqn:Hxy.
  - constructor; [by constructor|]. by constructor.
  - constructor; [done|]. apply insert_sorted_HdRel; [|done].
    unfold key_le. destruct (le_total (key x) (key y)); congruence.
Qed.

Lemma py_sorted_Sorted l : Sorted key_le (py_sorted key le l).
Proof.
  induction l as [|x l IH]; simpl; [constructor|].
  by apply insert_sorted_Sorted.
Qed.

(** Stability: the elements of a given key come out in the order they
    went in. *)
Lemma insert_sorted_filter_key k x l :
  filter (fun a => key a = k) (insert_sorted key le x l)
  = filter (fun a => key a = k) (x :: l).
Proof.
  induction l as [|y l IH]; simpl; [done|].
  destruct (le (key x) (key y)) eqn:Hxy; [done|].
  rewrite filter_cons, IH, !filter_cons.
  destruct (decide (key y = k)) as [Hy|Hy]; [|done].
  destruct (decide (key x = k)) as [Hx|Hx]; [|done].
  exfalso. rewrite Hx, <- Hy in Hxy.
  destruct (le_total (key y) (key y)); congruence.
Qed.

Lemma py_sorted_stable k l :
  filter (fun a => key a = k) (py_sorted key le l)
  = filter (fun a => key a = k) l.
Proof.
  unfold py_sorted. induction l as [|x l IH]; [done|].
  cbn [foldr]. rewrite insert_sorted_filter_key, !filter_cons.
  by rewrite IH.
Qed.
End PySortedFacts.

Lemma string_leb_total (a b : string) : String.leb a b = true \/ String.leb b a = true.
Proof. apply String.leb_total. Qed.

Lemma Z_leb_total (a b : Z) : (a <=? b)%Z = true \/ (b <=? a)%Z = true.
Proof. destruct (Z.leb_spec a b); [by left|right]. apply Z.leb_le. lia. Qed.

(** ** Path normalisation *)

Lemma is_slash_true c : is_slash c = true -> c = "/"%char.
Proof. unfold is_slash, Str.chr_eqb. apply Ascii.eqb_eq. Qed.

Lemma length_after_run s : (String.length (after_run s) + run s = String.length s)%nat.
Proof.
  induction s as [|c t IH]; simpl; [done|].
  destruct (is_slash c); simpl; lia.
Qed.

(** The greedy repetition, followed by nothing that can fail, takes the
    whole run. *)
Lemma m_rep_slashes lo s cs :
  m_rep true (chr "/") lo None s cs (fun t cs' => Some (t, cs'))
  = if (lo <=? run s)%nat then Some (after_run s, cs) else None.
Proof.
  revert lo. induction s as [|c t IH]; intros lo; simpl.
  - by destruct lo.
  - unfold chr. fold (is_slash c). destruct (is_slash c); simpl.
    + rewrite IH. destruct lo as [|lo]; simpl.
      * by destruct (run t).
      * destruct (lo <=? run t)%nat eqn:Hlo; simpl; [done|].
        by destruct lo.
    + by destruct lo.
Qed.

Lemma match_here_slashes s :
  match_here slashes_re s
  = if (1 <=? run s)%nat then Some (after_run s, []) else None.
Proof. unfold match_here, slashes_re, plus. simpl. apply m_rep_slashes. Qed.

Lemma sub_go_slashes s :
  sub_go slashes_re "/" 0 s = collapse_runs false s
  /\ sub_go slashes_re "/" (run s) s = collapse_runs true s.
Proof.
  induction s as [|c t [IH0 IHrun]].
  - by split.
  - assert (H0 : sub_go slashes_re "/" 0 (String c t)
                 = collapse_runs false (String c t)).
    { cbn [sub_go]. rewrite match_here_slashes. cbn [run after_run collapse_runs].
      destruct (is_slash c) eqn:Hc.
      - cbn [Nat.leb].
        pose proof (length_after_run t) as Hlen. cbn [String.length].
        replace (S (String.length t) - String.length (after_run t))%nat
          with (S (run t)) by lia.
        rewrite IHrun. apply is_slash_true in Hc. by subst c.
      - cbn [Nat.leb]. by rewrite IH0. }
    split; [done|].
    cbn [run collapse_runs] in *. destruct (is_slash c); [|done].
    by cbn [sub_go].
Qed.

Lemma sub_slashes s : sub slashes_re "/" s = collapse_runs false s.
Proof. apply sub_go_slashes. Qed.

Lemma endswith_cons2 c d u :
  Str.endswith (String c (String d u)) "/" = Str.endswith (String d u) "/".
Proof.
  cbn [Str.endswith String.eqb]. by destruct (Ascii.eqb c "/").
Qed.

Lemma endswith_one c : Str.endswith (String c "") "/" = is_slash c.
Proof.
  unfold is_slash, Str.chr_eqb. cbn [Str.endswith String.eqb].
  destruct (Ascii.eqb c "/"); reflexivity.
Qed.

Lemma collapse_runs_shape s :
  (forall b, no_adjacent_slashes (collapse_runs b s) = true)
  /\ match collapse_runs true s with
     | String c _ => is_slash c = false
     | EmptyString => True
     end.
Proof.
  induction s as [|c t [IHadj IHhead]]; [done|].
  cbn [collapse_runs]. destruct (is_slash c) eqn:Hc.
  - split; [|done]. intros [|]; [done|].
    cbn [no_adjacent_slashes]. specialize (IHadj true).
    destruct (collapse_runs true t) as [|d u]; [done|].
    by rewrite IHhead, andb_false_r, IHadj.
  - split; [|done]. intros _.
    cbn [no_adjacent_slashes]. specialize (IHadj false).
    destruct (collapse_runs false t) as [|d u]; [done|].
    by rewrite Hc, IHadj.
Qed.

Lemma collapse_runs_fixed s :
  no_adjacent_slashes s = true ->
  collapse_runs false s = s
  /\ (match s with String c _ => is_slash c = false | EmptyString => True end ->
      collapse_runs true s = s).
Proof.
  induction s as [|c t IH]; [done|].
  cbn [no_adjacent_slashes collapse_runs]. intros Hadj.
  assert (Ht : no_adjacent_slashes t = true).
  { destruct t; [done|]. by apply andb_true_iff in Hadj as [_ ?]. }
  destruct (IH Ht) as [IH0 IH1].
  destruct (is_slash c) eqn:Hc.
  - split; [|done]. rewrite IH1; [done|].
    destruct t as [|d u]; [done|].
    apply andb_true_iff in Hadj as [Hcd _].
    by destruct (is_slash d).
  - by rewrite IH0.
Qed.

Lemma no_adjacent_cons2 c d u :
  no_adjacent_slashes (String c (String d u))
  = negb (is_slash c && is_slash d) && no_adjacent_slashes (String d u).
Proof. reflexivity. Qed.

Lemma no_adjacent_tail c t :
  no_adjacent_slashes (String c t) = true -> no_adjacent_slashes t = true.
Proof.
  cbn [no_adjacent_slashes]. destruct t; [done|].
  by intros [_ ?]%andb_true_iff.
Qed.

(** On a text without adjacent separators, longer than the root, that
    ends in a separator: [rstrip] takes the last character only, and what
    is left does not end in a separator. *)
Lemma rstrip_trailing_slash s :
  no_adjacent_slashes s = true ->
  (1 < String.length s)%nat ->
  Str.endswith s "/" = true ->
  Str.rstrip "/" s = drop_last s
  /\ drop_last s <> EmptyString
  /\ Str.endswith (drop_last s) "/" = false
  /\ no_adjacent_slashes (drop_last s) = true.
Proof.
  induction s as [|c t IH]; [done|].
  intros Hadj Hlen Hend.
  destruct t as [|d u]; [simpl in Hlen; lia|].
  rewrite endswith_cons2 in Hend.
  pose proof (no_adjacent_tail _ _ Hadj) as Ht.
  destruct u as [|e v].
  - (* the text is [c d], and [d] is the separator *)
    rewrite endswith_one in Hend.
    cbn [no_adjacent_slashes] in Hadj. rewrite Hend, !andb_true_r in Hadj.
    apply negb_true_iff in Hadj as Hc.
    cbn [Str.rstrip drop_last Str.chr_in]. fold (is_slash d) (is_slash c).
    rewrite Hend, Hc. cbn [orb].
    rewrite endswith_one. cbn [no_adjacent_slashes]. done.
  - destruct (IH Ht) as (Hstrip & Hne & Hend' & Hadj'); [simpl; lia|done|].
    change (Str.rstrip "/" (String c (String d (String e v))))
      with (match Str.rstrip "/" (String d (String e v)) with
            | EmptyString =>
                if Str.chr_in c "/" then EmptyString else String c EmptyString
            | String _ _ as r => String c r
            end).
    rewrite Hstrip.
    change (drop_last (String c (String d (String e v))))
      with (String c (drop_last (String d (String e v)))).
    destruct (drop_last (String d (String e v))) as [|d' u'] eqn:Hdl; [done|].
    split; [done|]. split; [done|]. split.
    + by rewrite endswith_cons2.
    + rewrite no_adjacent_cons2, Hadj', andb_true_r.
      cbn [drop_last] in Hdl. injection Hdl as <- _.
      rewrite no_adjacent_cons2 in Hadj.
      by apply andb_true_iff in Hadj as [? _].
Qed.

Lemma endswith_length s : Str.endswith s "/" = true -> (1 <= String.length s)%nat.
Proof. destruct s; [done|simpl; lia]. Qed.

Lemma length_one_slash s :
  String.length s = 1%nat -> Str.endswith s "/" = true -> s = "/"%string.
Proof.
  destruct s as [|c [|d u]]; [done| |done].
  intros _. rewrite endswith_one. by intros ->%is_slash_true.
Qed.

Lemma normalize_path_unfold path :
  normalize_path path
  = let q := collapse_runs false path in
    if (1 <? String.length q)%nat && Str.endswith q "/" then Str.rstrip "/" q else q.
Proof. unfold normalize_path. by rewrite sub_slashes. Qed.

(** C6: [normalize_path] does what the specification says (every run of
    separators collapsed into one, then a trailing separator stripped
    unless the path is the root separator); its result has no two
    adjacent separators and ends in a separator only when it is the
    root; and normalising twice is normalising once. *)
Theorem normalize_path_idempotent (p : string) :
  normalize_path p = normalize_spec p
  /\ no_adjacent_slashes (normalize_path p) = true
  /\ (Str.endswith (normalize_path p) "/" = true -> normalize_path p = "/"%string)
  /\ normalize_path (normalize_path p) = normalize_path p.
Proof.
  assert (Hshape : forall q, no_adjacent_slashes q = true ->
            let n := if (1 <? String.length q)%nat && Str.endswith q "/"
                     then Str.rstrip "/" q else q in
            n = strip_trailing_separator q
            /\ no_adjacent_slashes n = true
            /\ (Str.endswith n "/" = true -> n = "/"%string)).
  { intros q Hadj. unfold strip_trailing_separator. cbn zeta.
    destruct (String.eqb_spec q "/") as [->|Hroot]; [done|].
    destruct (Str.endswith q "/") eqn:Hend.
    - assert (1 < String.length q)%nat as Hlen.
      { pose proof (endswith_length _ Hend).
        destruct (decide (String.length q = 1%nat)) as [H1|]; [|lia].
        by destruct Hroot; apply length_one_slash. }
      destruct (rstrip_trailing_slash q Hadj Hlen Hend) as (-> & _ & Hend' & Hadj').
      apply Nat.ltb_lt in Hlen. rewrite Hlen. cbn [andb].
      split; [done|]. split; [done|]. by rewrite Hend'.
    - rewrite andb_false_r. split; [done|]. split; [done|]. by rewrite Hend. }
  pose proof (proj1 (collapse_runs_shape p) false) as Hq.
  destruct (Hshape _ Hq) as (Heq & Hadj & Hend).
  rewrite <- normalize_path_unfold in Heq, Hadj, Hend.
  split; [done|]. split; [done|]. split; [done|].
  rewrite (normalize_path_unfold (normalize_path p)). cbn zeta.
  rewrite (proj1 (collapse_runs_fixed _ Hadj)).
  destruct (Str.endswith (normalize_path p) "/") eqn:He.
  - by rewrite (Hend eq_refl).
  - by rewrite andb_false_r.
Qed.

Example normalize_path_examples :
  map normalize_path ["/a//b/"; "/"; "//"; "///"; ""; "a/"; "a//b///"; "/a/b"]%string
  = ["/a/b"; "/"; "/"; "/"; ""; "a"; "a/b"; "/a/b"]%string.
Proof. vm_compute. reflexivity. Qed.


(** ** The dictionary of unique routes *)

Lemma dict_get_set {V} (k k' : string) (v : V) (d : dict V) :
  dict_get k' (dict_set k v d)
  = if String.eqb k' k then Some v else dict_get k' d.
Proof.
  induction d as [|[k0 v0] d IH]; [done|]. simpl.
  destruct (String.eqb_spec k k0) as [->|Hk]; simpl.
  - by destruct (String.eqb_spec k' k0).
  - rewrite IH. destruct (String.eqb_spec k' k0) as [->|]; [|done].
    by destruct (String.eqb_spec k0 k) as [->|].
Qed.

Lemma dict_get_None {V} (k : string) (d : dict V) :
  dict_get k d = None <-> k ∉ d.*1.
Proof.
  induction d as [|[k0 v0] d IH]; simpl.
  - split; [|done]. intros _. apply not_elem_of_nil.
  - rewrite not_elem_of_cons. destruct (String.eqb_spec k k0) as [->|Hk]; [|tauto].
    split; [done|]. by intros [? _].
Qed.

Lemma dict_set_fresh {V} (k : string) (v : V) (d : dict V) :
  dict_get k d = None -> dict_set k v d = d ++ [(k, v)].
Proof.
  induction d as [|[k0 v0] d IH]; [done|]. simpl.
  destruct (String.eqb_spec k k0) as [->|Hk]; [done|].
  intros H. by rewrite IH.
Qed.

Lemma dict_set_keys {V} (k : string) (v v' : V) (d : dict V) :
  dict_get k d = Some v' -> (dict_set k v d).*1 = d.*1.
Proof.
  induction d as [|[k0 v0] d IH]; [done|]. cbn [dict_get dict_set].
  destruct (String.eqb_spec k k0) as [->|Hk]; [done|].
  intros H. csimpl. f_equal. by apply IH.
Qed.

Lemma dict_get_elem_of {V} (k : string) (v : V) (d : dict V) :
  dict_get k d = Some v -> (k, v) ∈ d.
Proof.
  induction d as [|[k0 v0] d IH]; [done|]. simpl.
  destruct (String.eqb_spec k k0) as [->|Hk].
  - intros [= ->]. apply elem_of_cons. by left.
  - intros H. apply elem_of_cons. right. by apply IH.
Qed.

Lemma dict_set_Forall {V} (P : string * V -> Prop) (k : string) (v : V) (d : dict V) :
  Forall P d -> (forall k', k' = k -> P (k', v)) -> Forall P (dict_set k v d).
Proof.
  intros Hd Hv. induction Hd as [|[k0 v0] d H0 Hd IH]; simpl.
  - repeat constructor. by apply Hv.
  - destruct (String.eqb_spec k k0) as [->|Hk]; constructor; auto.
Qed.

(** ** Canonicalisation: the invariants of the merge loop *)

Lemma record_at_snoc p l r :
  record_at p (l ++ [r]) = record_step p (record_at p l) r.
Proof.
  unfold record_at, record_step. rewrite foldl_snoc.
  unfold add_route at 1.
  destruct (dict_get (normalize_path (rt_path r)) _) as [existing|] eqn:Hget;
    rewrite dict_get_set; destruct (String.eqb_spec p (normalize_path (rt_path r)))
      as [->|]; by rewrite ?Hget.
Qed.

Lemma merge_into_path existing route : rt_path (merge_into existing route) = rt_path existing.
Proof.
  unfold merge_into. destruct (decide _); destruct (rt_name route);
    simpl; try done; destruct (rt_name _) as [n'|]; try done;
    by destruct (truthy n').
Qed.

Lemma add_route_well_keyed d r : well_keyed d -> well_keyed (add_route d r).
Proof.
  intros [Hnd Hpaths]. unfold add_route.
  set (p := normalize_path (rt_path r)).
  destruct (dict_get p d) as [existing|] eqn:Hget.
  - split.
    + by erewrite dict_set_keys.
    + apply dict_set_Forall; [done|]. intros k' ->. simpl.
      rewrite merge_into_path.
      apply dict_get_elem_of in Hget.
      by apply (proj1 (Forall_forall _ _) Hpaths (p, existing)).
  - rewrite dict_set_fresh by done. split.
    + rewrite fmap_app. apply NoDup_app. split; [done|]. split.
      * intros k Hk [->|[]%elem_of_nil]%elem_of_cons.
        by apply dict_get_None in Hget.
      * apply NoDup_singleton.
    + apply Forall_app. split; [done|]. by repeat constructor.
Qed.

Lemma canon_well_keyed l : well_keyed (foldl add_route [] l).
Proof.
  induction l as [|r l IH] using rev_ind.
  - split; constructor.
  - rewrite foldl_snoc. by apply add_route_well_keyed.
Qed.

Lemma record_at_Some_iff p l :
  is_Some (record_at p l) <-> exists r, r ∈ l /\ normalize_path (rt_path r) = p.
Proof.
  induction l as [|r l IH] using rev_ind.
  - split; [by intros [? [=]]|]. by intros (r & []%elem_of_nil & _).
  - rewrite record_at_snoc. unfold record_step.
    destruct (String.eqb_spec p (normalize_path (rt_path r))) as [->|Hp].
    + split; [|by eauto]. intros _. exists r. split; [|done].
      apply elem_of_app. right. by apply list_elem_of_singleton.
    + rewrite IH. split.
      * intros (r' & Hin & Hr'). exists r'. split; [|done].
        apply elem_of_app. by left.
      * intros (r' & [Hin|Hin%list_elem_of_singleton]%elem_of_app & Hr');
          [by eauto|]. by subst.
Qed.

Lemma canon_paths l :
  rt_path <$> dict_values (foldl add_route [] l) = (foldl add_route [] l).*1.
Proof.
  destruct (canon_well_keyed l) as [_ Hpaths]. unfold dict_values.
  induction Hpaths as [|[k v] d H0 Hd IH]; [done|].
  change (rt_path v :: (rt_path <$> map snd d) = k :: d.*1).
  simpl in H0. by rewrite H0, IH.
Qed.

Lemma elem_of_keys_iff {V} (k : string) (d : dict V) :
  k ∈ d.*1 <-> is_Some (dict_get k d).
Proof.
  destruct (dict_get k d) as [v|] eqn:Hget.
  - split; [by eauto|]. intros _.
    destruct (decide (k ∈ d.*1)) as [|Hnot]; [done|].
    apply dict_get_None in Hnot. congruence.
  - split; [|by intros [? [=]]]. intros Hin.
    by apply dict_get_None in Hget.
Qed.

Lemma save_routes_paths routes :
  rt_path <$> save_routes_to_file routes
  ≡ₚ (foldl add_route [] (candidates routes)).*1.
Proof.
  unfold save_routes_to_file, unique_routes_of.
  rewrite py_sorted_Permutation. by rewrite canon_paths.
Qed.

(** C7: the inventory holds one record per normalised path, no path
    twice and no path missing; the two candidates [/a//b/] and [/a/b]
    give the one record [/a/b]. *)
Theorem one_record_per_normalized_path :
  (forall routes : dict (list route_rec),
      NoDup (rt_path <$> save_routes_to_file routes)
      /\ forall p,
           p ∈ rt_path <$> save_routes_to_file routes
           <-> exists r, r ∈ candidates routes /\ normalize_path (rt_path r) = p)
  /\ rt_path <$> save_routes_to_file
                   [("a.js", [Route VueRoute None "/a//b/" "a.js"]);
                    ("b.js", [Route GeneralRoute None "/a/b" "b.js"])]
     = ["/a/b"]%string.
Proof.
  split; [|by vm_compute].
  intros routes. split.
  - rewrite save_routes_paths. apply canon_well_keyed.
  - intros p. rewrite save_routes_paths, elem_of_keys_iff.
    apply record_at_Some_iff.
Qed.

Lemma save_routes_Sorted (routes : dict (list route_rec)) :
  Sorted (key_le rt_path String.leb) (save_routes_to_file routes).
Proof. apply py_sorted_Sorted, string_leb_total. Qed.

Lemma Sorted_adjacent {A} (R : A -> A -> Prop) (l : list A) i a b :
  Sorted R l -> l !! i = Some a -> l !! S i = Some b -> R a b.
Proof.
  intros Hl. revert i. induction Hl as [|x l Hl IH Hx]; intros i; [done|].
  destruct i as [|i]; simpl.
  - intros [= ->] Hb. destruct l as [|y l]; [done|].
    simpl in Hb. injection Hb as ->. by inversion Hx.
  - apply IH.
Qed.

Lemma dict_get_of_elem {V} (k : string) (v : V) (d : dict V) :
  NoDup d.*1 -> (k, v) ∈ d -> dict_get k d = Some v.
Proof.
  induction d as [|[k0 v0] d IH]; [by intros _ ?%elem_of_nil|].
  rewrite fmap_cons, NoDup_cons. intros [Hk0 Hnd] [[= -> ->]|Hin]%elem_of_cons; simpl.
  - by rewrite String.eqb_refl.
  - destruct (String.eqb_spec k k0) as [->|]; [|by apply IH].
    destruct Hk0. apply list_elem_of_fmap. by exists (k0, v).
Qed.

Lemma save_routes_record routes e :
  e ∈ save_routes_to_file routes ->
  record_at (rt_path e) (candidates routes) = Some e.
Proof.
  unfold save_routes_to_file, unique_routes_of. fold (candidates routes).
  rewrite py_sorted_Permutation. unfold dict_values.
  intros ([k e'] & -> & Hin)%list_elem_of_fmap. simpl.
  destruct (canon_well_keyed (candidates routes)) as [Hnd Hpaths].
  pose proof (proj1 (Forall_forall _ _) Hpaths _ Hin) as Hk. simpl in Hk.
  rewrite Hk. by apply dict_get_of_elem.
Qed.

(** C9: the list written out holds the records of the inventory, each
    once, sorted by path, ascending: each record's path is at most the
    path of the record after it. Three candidates found in the order
    [/b], [/a/], [/a] are written as the record of [/a], with both
    sources, and then the record of [/b]. *)
Theorem routes_sorted_by_path (routes : dict (list route_rec)) :
  Sorted (key_le rt_path String.leb) (save_routes_to_file routes)
  /\ (forall i a b,
        save_routes_to_file routes !! i = Some a ->
        save_routes_to_file routes !! S i = Some b ->
        String.leb (rt_path a) (rt_path b) = true)
  /\ save_routes_to_file routes ≡ₚ dict_values (unique_routes_of routes)
  /\ (forall e, e ∈ save_routes_to_file routes
                <-> record_at (rt_path e) (candidates routes) = Some e)
  /\ save_routes_to_file
        [("x.js", [Route VueRoute None "/b" "x.js";
                   Route GeneralRoute None "/a/" "x.js"]);
         ("y.js", [Route VueRoute None "/a" "y.js"])]
     = [Route GeneralRoute None "/a" "x.js, y.js"; Route VueRoute None "/b" "x.js"].
Proof.
  split; [apply save_routes_Sorted|]. split.
  { intros i a b. apply (Sorted_adjacent _ _ _ _ _ (save_routes_Sorted routes)). }
  split; [apply py_sorted_Permutation|]. split; [|by vm_compute].
  intros e. split; [apply save_routes_record|].
  intros He. unfold save_routes_to_file, unique_routes_of.
  fold (candidates routes). rewrite py_sorted_Permutation.
  unfold record_at in He. apply dict_get_elem_of in He.
  unfold dict_values. apply list_elem_of_fmap. by exists (rt_path e, e).
Qed.

(** ** Names *)

Lemma merge_into_name existing route :
  rt_name (merge_into existing route)
  = match rt_name route, rt_name existing with
    | Some n, Some n' => if truthy n' then Some n' else Some n
    | Some n, None => Some n
    | None, o => o
    end.
Proof.
  unfold merge_into. destruct (rt_name route) as [n|].
  - destruct (decide _); simpl; destruct (rt_name existing) as [n'|] eqn:Hn;
      simpl; try done; by destruct (truthy n'); simpl; rewrite ?Hn.
  - by destruct (decide _).
Qed.

Lemma record_at_app p l1 l2 :
  record_at p (l1 ++ l2) = foldl (record_step p) (record_at p l1) l2.
Proof.
  induction l2 as [|r l2 IH] using rev_ind.
  - by rewrite app_nil_r.
  - by rewrite app_assoc, record_at_snoc, foldl_snoc, IH.
Qed.

(** A record with a non-empty name keeps it through one more candidate. *)
Lemma record_step_keeps_name p e n r :
  rt_name e = Some n -> truthy n = true ->
  exists e', record_step p (Some e) r = Some e' /\ rt_name e' = Some n.
Proof.
  intros Hn Ht. unfold record_step.
  destruct (String.eqb p (normalize_path (rt_path r))); [|by eauto].
  eexists. split; [done|]. rewrite merge_into_name, Hn, Ht. simpl.
  by destruct (rt_name r).
Qed.

Lemma record_steps_keep_name p e n l :
  rt_name e = Some n -> truthy n = true ->
  exists e', foldl (record_step p) (Some e) l = Some e' /\ rt_name e' = Some n.
Proof.
  intros Hn Ht. induction l as [|r l (e1 & He1 & Hn1)] using rev_ind; [by eauto|].
  rewrite foldl_snoc, He1. by apply record_step_keeps_name.
Qed.

Lemma save_routes_two routes r1 r2 :
  candidates routes = [r1; r2] ->
  normalize_path (rt_path r1) = normalize_path (rt_path r2) ->
  save_routes_to_file routes
  = [merge_into (set_path (normalize_path (rt_path r1)) r1)
                (set_path (normalize_path (rt_path r1)) r2)].
Proof.
  intros Hc Hp. unfold save_routes_to_file, unique_routes_of.
  fold (candidates routes). rewrite Hc. cbn [foldl].
  unfold add_route at 2. cbn [dict_get dict_set].
  unfold add_route. rewrite <- Hp. cbn [dict_get].
  rewrite String.eqb_refl. cbn [dict_set]. by rewrite String.eqb_refl.
Qed.

(** A candidate for another path, or one that carries no name, leaves
    the name of a record as it is. *)
Lemma record_step_unnamed p e r :
  (normalize_path (rt_path r) = p -> rt_name r = None) ->
  exists e', record_step p (Some e) r = Some e' /\ rt_name e' = rt_name e.
Proof.
  intros Hr. unfold record_step.
  destruct (String.eqb_spec p (normalize_path (rt_path r))) as [Hp|]; [|by eauto].
  eexists. split; [done|]. rewrite merge_into_name. simpl. by rewrite Hr.
Qed.

Lemma record_steps_unnamed p e l :
  Forall (fun c => normalize_path (rt_path c) = p -> rt_name c = None) l ->
  exists e', foldl (record_step p) (Some e) l = Some e' /\ rt_name e' = rt_name e.
Proof.
  induction l as [|r l IH] using rev_ind; [by eauto|].
  intros [Hl Hr%Forall_inv]%Forall_app. destruct (IH Hl) as (e1 & He1 & Hn1).
  rewrite foldl_snoc, He1.
  destruct (record_step_unnamed p e1 r Hr) as (e2 & He2 & Hn2).
  exists e2. split; [done|]. congruence.
Qed.

(** A record that counts as unnamed takes the name of a candidate for its
    path that carries one. *)
Lemma record_step_takes_name p e r n :
  counts_as_unnamed e -> normalize_path (rt_path r) = p -> rt_name r = Some n ->
  exists e', record_step p (Some e) r = Some e' /\ rt_name e' = Some n.
Proof.
  unfold counts_as_unnamed. intros He Hp Hn. unfold record_step.
  rewrite Hp, String.eqb_refl. eexists. split; [done|].
  rewrite merge_into_name. simpl. rewrite Hn.
  destruct (rt_name e) as [n'|]; [by rewrite He|done].
Qed.

(** C5, as the code has it: of two candidates for one path, one without
    a name and one named X, the record is named X whichever comes first;
    a non-empty name, once on a record, stays through every later
    candidate; and an empty name counts as none: a record without a name
    or with the empty name takes the name of the next candidate for its
    path that carries one. *)
Theorem names_first_writer_wins :
  (forall routes r1 r2 X,
      rt_name r1 = None -> rt_name r2 = Some (PyStr X) ->
      normalize_path (rt_path r1) = normalize_path (rt_path r2) ->
      candidates routes = [r1; r2] \/ candidates routes = [r2; r1] ->
      rt_name <$> save_routes_to_file routes = [Some (PyStr X)])
  /\ (forall l1 l2 p e n,
        record_at p l1 = Some e -> rt_name e = Some n -> truthy n = true ->
        exists e', record_at p (l1 ++ l2) = Some e' /\ rt_name e' = Some n)
  /\ (forall l1 l2 p e r n,
        record_at p l1 = Some e ->
        rt_name e = None \/ rt_name e = Some (PyStr "") ->
        Forall (fun c => normalize_path (rt_path c) = p -> rt_name c = None) l2 ->
        normalize_path (rt_path r) = p -> rt_name r = Some n ->
        exists e', record_at p (l1 ++ l2 ++ [r]) = Some e' /\ rt_name e' = Some n).
Proof.
  split; [|split].
  - intros routes r1 r2 X H1 H2 Hp [Hc|Hc].
    + rewrite (save_routes_two _ _ _ Hc Hp). cbn [fmap list_fmap].
      by rewrite merge_into_name; simpl; rewrite H1, H2.
    + rewrite (save_routes_two _ _ _ Hc (eq_sym Hp)). cbn [fmap list_fmap].
      by rewrite merge_into_name; simpl; rewrite H1, H2.
  - intros l1 l2 p e n He Hn Ht. rewrite record_at_app, He.
    by apply record_steps_keep_name.
  - intros l1 l2 p e r n He Hname Hl2 Hp Hn.
    rewrite record_at_app, He, foldl_app.
    destruct (record_steps_unnamed p e l2 Hl2) as (e1 & -> & Hn1).
    cbn [foldl]. apply record_step_takes_name; [|done..].
    unfold counts_as_unnamed. rewrite Hn1. by destruct Hname as [->| ->].
Qed.

(** The theorem at the claim's own input: a candidate without a name and
    one named X for the same normalised path, in both orders; a named
    record followed by a candidate of another name; and a record named by
    the empty string, followed by a candidate without a name and one
    named Y. *)
Lemma names_first_writer_wins_witness :
  rt_name <$> save_routes_to_file
                [("a.js", [Route VueRoute None "/login/" "a.js";
                           Route VueRoute (Some (PyStr "X")) "/login" "a.js"])]
  = [Some (PyStr "X")]
  /\ rt_name <$> save_routes_to_file
                   [("a.js", [Route VueRoute (Some (PyStr "X")) "/login" "a.js"]);
                    ("b.js", [Route VueRoute None "/login/" "b.js"])]
     = [Some (PyStr "X")]
  /\ (exists e',
        record_at "/login"
          ([Route VueRoute (Some (PyStr "X")) "/login" "a.js"]
           ++ [Route VueRoute (Some (PyStr "Y")) "//login" "b.js"]) = Some e'
        /\ rt_name e' = Some (PyStr "X"))
  /\ (exists e',
        record_at "/a"
          ([Route VueRoute (Some (PyStr "")) "/a" "a.js"]
           ++ [Route GeneralRoute None "/a/" "b.js"]
           ++ [Route VueRoute (Some (PyStr "Y")) "/a" "c.js"]) = Some e'
        /\ rt_name e' = Some (PyStr "Y")).
Proof.
  split; [|split; [|split]].
  - apply (proj1 names_first_writer_wins _
             (Route VueRoute None "/login/" "a.js")
             (Route VueRoute (Some (PyStr "X")) "/login" "a.js") "X");
      [reflexivity|reflexivity|vm_compute; reflexivity|left; reflexivity].
  - apply (proj1 names_first_writer_wins _
             (Route VueRoute None "/login/" "b.js")
             (Route VueRoute (Some (PyStr "X")) "/login" "a.js") "X");
      [reflexivity|reflexivity|vm_compute; reflexivity|right; reflexivity].
  - apply (proj1 (proj2 names_first_writer_wins)
             [Route VueRoute (Some (PyStr "X")) "/login" "a.js"] _ "/login"
             (Route VueRoute (Some (PyStr "X")) "/login" "a.js") (PyStr "X"));
      [vm_compute; reflexivity|reflexivity|reflexivity].
  - apply (proj2 (proj2 names_first_writer_wins)
             [Route VueRoute (Some (PyStr "")) "/a" "a.js"]
             [Route GeneralRoute None "/a/" "b.js"] "/a"
             (Route VueRoute (Some (PyStr "")) "/a" "a.js")
             (Route VueRoute (Some (PyStr "Y")) "/a" "c.js") (PyStr "Y"));
      [vm_compute; reflexivity|right; reflexivity| |vm_compute; reflexivity
      |reflexivity].
    constructor; [|constructor]. intros _. reflexivity.
Defined.

(** C5, as stated, fails on an empty name: the record named by the empty
    string takes the name of the next candidate that has one. *)
Lemma empty_name_is_replaced :
  rt_name <$> record_at "/a" [Route VueRoute (Some (PyStr "")) "/a" "a.js"]
  = Some (Some (PyStr ""))
  /\ rt_name <$> record_at "/a" ([Route VueRoute (Some (PyStr "")) "/a" "a.js"]
                                 ++ [Route VueRoute (Some (PyStr "Y")) "/a" "a.js"])
     = Some (Some (PyStr "Y")).
Proof. split; vm_compute; reflexivity. Qed.

(** The same from a source text: the second rule of the first catalogue
    reads both names. *)
Example empty_name_from_text :
  (let* routes := extract_routes_from_js
                    "{ name: '', path: '/a' }, { name: 'Y', path: '/a' }" "a.js" in
   Ok (save_routes_to_file [("a.js", routes)]))
  = Ok [Route VueRoute (Some (PyStr "Y")) "/a" "a.js"].
Proof. vm_compute. reflexivity. Qed.

(** ** Sources *)

Lemma append_cons c a b : String c a +:+ b = String c (a +:+ b).
Proof. reflexivity. Qed.

Lemma append_nil b : "" +:+ b = b.
Proof. reflexivity. Qed.

Lemma prefix_sep c t :
  String.prefix ", " (String c t)
  = Str.chr_eqb c "," && match t with
                         | String d _ => Str.chr_eqb d " "
                         | EmptyString => false
                         end.
Proof.
  unfold Str.chr_eqb. cbn [String.prefix].
  destruct (ascii_dec "," c) as [<-|Hc].
  - destruct t as [|d u]; [done|]. cbn [String.prefix].
    destruct (ascii_dec " " d) as [<-|Hd]; [by destruct u|].
    symmetry. apply Ascii.eqb_neq. congruence.
  - symmetry. apply andb_false_iff. left. apply Ascii.eqb_neq. congruence.
Qed.

Lemma split_go_cons c t :
  Str.split_go ", " 0 (String c t)
  = if String.prefix ", " (String c t)
    then EmptyString :: Str.split_go ", " 1 t
    else match Str.split_go ", " 0 t with
         | x :: l => String c x :: l
         | [] => [String c EmptyString]
         end.
Proof. reflexivity. Qed.

(** A separator-free text in front of a separator is the first piece. *)
Lemma split_sep_free_app a rest :
  sep_free a ->
  Str.split ", " (a +:+ ", " +:+ rest) = a :: Str.split ", " rest.
Proof.
  unfold sep_free, Str.split. induction a as [|c a IH]; intros Ha.
  { rewrite append_nil. change (", " +:+ rest) with (String "," (String " " rest)).
    by rewrite split_go_cons, prefix_sep. }
  rewrite split_go_cons in Ha. rewrite append_cons, split_go_cons.
  rewrite prefix_sep in *.
  destruct (Str.chr_eqb c "," && _) eqn:Hpre in Ha; [done|].
  assert (Hpre' : Str.chr_eqb c "," &&
                  match a +:+ ", " +:+ rest with
                  | String d _ => Str.chr_eqb d " "
                  | EmptyString => false
                  end = false).
  { destruct (Str.chr_eqb c ","); [|done]. simpl in *.
    destruct a as [|d a']; [done|]. by rewrite append_cons. }
  rewrite Hpre'.
  destruct (Str.split_go ", " 0 a) as [|x l] eqn:Hsplit.
  - injection Ha as <-. discriminate Hsplit.
  - injection Ha as -> ->. by rewrite IH.
Qed.

Lemma split_join (l : list string) :
  l <> [] -> Forall sep_free l -> Str.split ", " (Str.join ", " l) = l.
Proof.
  intros Hne Hall. induction Hall as [|x l Hx Hl IH]; [done|].
  destruct l as [|y l]; [done|].
  change (Str.join ", " (x :: y :: l)) with (x +:+ ", " +:+ Str.join ", " (y :: l)).
  by rewrite split_sep_free_app, IH.
Qed.

Lemma sorted_strings_Permutation (S : gset string) : sorted_strings S ≡ₚ elements S.
Proof. apply py_sorted_Permutation. Qed.

Lemma elem_of_sorted_strings (S : gset string) s : s ∈ sorted_strings S <-> s ∈ S.
Proof. by rewrite sorted_strings_Permutation, elem_of_elements. Qed.

Lemma list_to_set_sorted_strings (S : gset string) : list_to_set (sorted_strings S) = S.
Proof. by rewrite sorted_strings_Permutation, list_to_set_elements_L. Qed.

Lemma sorted_strings_singleton s : sorted_strings {[s]} = [s].
Proof. unfold sorted_strings. by rewrite elements_singleton. Qed.

Lemma sorted_strings_nonempty (S : gset string) s : s ∈ S -> sorted_strings S <> [].
Proof.
  intros Hs Hnil. apply elem_of_sorted_strings in Hs. rewrite Hnil in Hs.
  by apply elem_of_nil in Hs.
Qed.

Lemma sources_of_snoc p l r :
  sources_of p (l ++ [r])
  = if decide (normalize_path (rt_path r) = p)
    then sources_of p l ∪ {[rt_source_file r]}
    else sources_of p l.
Proof.
  unfold sources_of. rewrite filter_app, filter_cons, filter_nil.
  destruct (decide _); [|by rewrite app_nil_r].
  rewrite fmap_app, list_to_set_app_L. simpl. by rewrite (right_id_L ∅ (∪)).
Qed.

Lemma elem_of_sources_of p l s :
  s ∈ sources_of p l
  <-> exists r, r ∈ l /\ normalize_path (rt_path r) = p /\ rt_source_file r = s.
Proof.
  unfold sources_of. rewrite elem_of_list_to_set, list_elem_of_fmap. split.
  - intros (r & -> & [? ?]%list_elem_of_filter). eauto.
  - intros (r & Hin & Hp & <-). exists r. split; [done|].
    by apply list_elem_of_filter.
Qed.

Lemma merge_into_source existing route :
  rt_source_file (merge_into existing route)
  = let existing_sources : gset string :=
      list_to_set (Str.split ", " (rt_source_file existing)) in
    if decide (rt_source_file route ∈ existing_sources)
    then rt_source_file existing
    else Str.join ", " (sorted_strings (existing_sources ∪ {[rt_source_file route]})).
Proof.
  unfold merge_into. cbn zeta.
  destruct (decide _); destruct (rt_name route); simpl; try done;
    destruct (rt_name existing) as [n'|]; simpl; try done; by destruct (truthy n').
Qed.

(** The invariant of the merge loop on sources: the record of a path
    lists, sorted and joined, the sources of the candidates seen for it. *)
Lemma record_at_sources p l e :
  Forall (fun r => sep_free (rt_source_file r)) l ->
  record_at p l = Some e ->
  rt_source_file e = Str.join ", " (sorted_strings (sources_of p l)).
Proof.
  revert e. induction l as [|r l IH] using rev_ind; intros e Hfree; [done|].
  apply Forall_app in Hfree as [Hl Hr]. apply Forall_inv in Hr.
  rewrite record_at_snoc, sources_of_snoc. unfold record_step.
  destruct (String.eqb_spec p (normalize_path (rt_path r))) as [->|Hp].
  - rewrite decide_True by done.
    destruct (record_at _ l) as [e0|] eqn:Hrec; intros [= <-].
    + rewrite merge_into_source. cbn zeta.
      rewrite (IH e0 Hl eq_refl).
      assert (exists s, s ∈ sources_of (normalize_path (rt_path r)) l) as [s Hs].
      { destruct (proj1 (record_at_Some_iff (normalize_path (rt_path r)) l))
          as (r' & ? & ?); [by eauto|].
        exists (rt_source_file r'). apply elem_of_sources_of. eauto. }
      rewrite split_join.
      * rewrite list_to_set_sorted_strings. simpl.
        destruct (decide _) as [Hin|]; [|done].
        f_equal. f_equal. apply set_eq. intros x.
        rewrite elem_of_union, elem_of_singleton.
        split; [by left|]. by intros [?| ->].
      * by eapply sorted_strings_nonempty.
      * apply Forall_forall. intros s' Hs'%elem_of_sorted_strings.
        apply elem_of_sources_of in Hs' as (r' & Hin & _ & <-).
        by apply (proj1 (Forall_forall _ _) Hl).
    + simpl.
      assert (sources_of (normalize_path (rt_path r)) l = ∅) as ->.
      { apply set_eq. intros s. rewrite elem_of_sources_of.
        split; [|by intros ?%elem_of_empty].
        intros (r' & Hin & Heq & _).
        assert (is_Some (record_at (normalize_path (rt_path r)) l)) as [? ?];
          [|congruence].
        apply record_at_Some_iff. eauto. }
      by rewrite (left_id_L ∅ (∪)), sorted_strings_singleton.
  - rewrite decide_False by done. by apply IH.
Qed.

Lemma sources_of_Permutation p l l' : l ≡ₚ l' -> sources_of p l = sources_of p l'.
Proof.
  intros Hperm. apply set_eq. intros s. rewrite !elem_of_sources_of.
  by setoid_rewrite Hperm.
Qed.

Lemma sorted_strings_Sorted (S : gset string) :
  Sorted (key_le id String.leb) (sorted_strings S).
Proof. apply py_sorted_Sorted, string_leb_total. Qed.

Lemma sorted_strings_NoDup (S : gset string) : NoDup (sorted_strings S).
Proof. rewrite sorted_strings_Permutation. apply NoDup_elements. Qed.

(** C8: with source names that hold no separator, the [source_file] of a
    record is the sorted, duplicate-free list of the sources of the
    candidates for its path, joined by comma and space; hence the order
    of the candidates does not matter. For the sources [a.js] and [b.js]
    it is the text [a.js, b.js], in either order and when one of them
    contributes twice. *)
Theorem sources_merged_sorted :
  (forall routes e,
      Forall (fun r => sep_free (rt_source_file r)) (candidates routes) ->
      e ∈ save_routes_to_file routes ->
      let sources := sorted_strings (sources_of (rt_path e) (candidates routes)) in
      rt_source_file e = Str.join ", " sources
      /\ Sorted (key_le id String.leb) sources
      /\ NoDup sources
      /\ forall s, s ∈ sources
                   <-> exists r, r ∈ candidates routes
                                 /\ normalize_path (rt_path r) = rt_path e
                                 /\ rt_source_file r = s)
  /\ (forall routes routes' e e',
        Forall (fun r => sep_free (rt_source_file r)) (candidates routes) ->
        candidates routes ≡ₚ candidates routes' ->
        e ∈ save_routes_to_file routes -> e' ∈ save_routes_to_file routes' ->
        rt_path e = rt_path e' ->
        rt_source_file e = rt_source_file e')
  /\ (let a := Route VueRoute None "/x" "a.js" in
      let b := Route GeneralRoute None "/x/" "b.js" in
      rt_source_file <$> save_routes_to_file [("a.js", [a]); ("b.js", [b])]
      = ["a.js, b.js"]%string
      /\ rt_source_file <$> save_routes_to_file [("b.js", [b]); ("a.js", [a])]
         = ["a.js, b.js"]%string
      /\ rt_source_file <$> save_routes_to_file [("b.js", [b; b]); ("a.js", [a; a])]
         = ["a.js, b.js"]%string).
Proof.
  split; [|split; [|by vm_compute]].
  - intros routes e Hfree He. cbn zeta. split; [|split; [|split]].
    + by apply record_at_sources, save_routes_record.
    + apply sorted_strings_Sorted.
    + apply sorted_strings_NoDup.
    + intros s. by rewrite elem_of_sorted_strings, elem_of_sources_of.
  - intros routes routes' e e' Hfree Hperm He He' Hpath.
    rewrite (record_at_sources _ _ _ Hfree (save_routes_record _ _ He)).
    assert (Hfree' : Forall (fun r => sep_free (rt_source_file r)) (candidates routes'))
      by by rewrite <- Hperm.
    rewrite (record_at_sources _ _ _ Hfree' (save_routes_record _ _ He')).
    by rewrite Hpath, (sources_of_Permutation _ _ _ Hperm).
Qed.

(** The theorem at the sources [a.js] and [b.js]. *)
Lemma sources_merged_sorted_witness :
  let a := Route VueRoute None "/x" "a.js" in
  let b := Route GeneralRoute None "/x/" "b.js" in
  let e := Route VueRoute None "/x" "a.js, b.js" in
  let e' := Route GeneralRoute None "/x" "a.js, b.js" in
  rt_source_file e
  = Str.join ", " (sorted_strings (sources_of "/x" (candidates [("a.js", [a]); ("b.js", [b])])))
  /\ rt_source_file e = rt_source_file e'.
Proof.
  cbn zeta. split.
  - refine (proj1 (proj1 sources_merged_sorted
                     [("a.js", [Route VueRoute None "/x" "a.js"]);
                      ("b.js", [Route GeneralRoute None "/x/" "b.js"])]
                     (Route VueRoute None "/x" "a.js, b.js") _ _)).
    + repeat constructor.
    + vm_compute. constructor.
  - refine (proj1 (proj2 sources_merged_sorted)
              [("a.js", [Route VueRoute None "/x" "a.js"]);
               ("b.js", [Route GeneralRoute None "/x/" "b.js"])]
              [("b.js", [Route GeneralRoute None "/x/" "b.js"]);
               ("a.js", [Route VueRoute None "/x" "a.js"])]
              (Route VueRoute None "/x" "a.js, b.js")
              (Route GeneralRoute None "/x" "a.js, b.js") _ _ _ _ _).
    + repeat constructor.
    + apply Permutation_swap.
    + vm_compute. constructor.
    + vm_compute. constructor.
    + reflexivity.
Defined.


(** ** The analysis of the probe results *)

Lemma length_count_lookup results l :
  length_count_of results !! l
  = match occurrences l results with
    | O => None
    | S n => Some (S n)
    end.
Proof.
  unfold length_count_of, occurrences.
  induction results as [|r results IH] using rev_ind; [done|].
  rewrite foldl_snoc, filter_app, length_app, filter_cons, filter_nil.
  unfold count_length at 1. rewrite lookup_insert.
  destruct (decide (pr_content_length r = l)) as [->|Hne].
  - rewrite IH. simpl.
    destruct (length _); simpl; [done|]. f_equal. lia.
  - simpl. by rewrite Nat.add_0_r.
Qed.

Lemma elem_of_unique_lengths results l :
  l ∈ unique_lengths_of (length_count_of results)
  <-> (1 <= occurrences l results <= 5)%nat.
Proof.
  unfold unique_lengths_of. rewrite elem_of_dom. split.
  - intros [n [Hn Hrange]%map_lookup_filter_Some]. simpl in Hrange.
    rewrite length_count_lookup in Hn.
    destruct (occurrences l results); [done|]. by injection Hn as <-.
  - intros Hrange. exists (occurrences l results).
    apply map_lookup_filter_Some. split; [|done].
    rewrite length_count_lookup. destruct (occurrences l results); [lia|done].
Qed.

Lemma unique_pages_eq results :
  (analyze_results results).1
  = py_sorted pr_content_length Z.leb (filter (interesting results) results).
Proof.
  unfold analyze_results. cbn [fst]. f_equal.
  apply list_filter_iff. intros r. apply elem_of_unique_lengths.
Qed.

(** C3: a content length is in the set of unique lengths exactly when it
    occurs one to five times; [unique_pages] holds exactly the results of
    such a length, in ascending order of content length, results of equal
    length in the order they came in; on the lengths
    100 (six times), 42, 42, 7 these are the results of lengths 7, 42, 42. *)
Theorem unique_pages_are_the_interesting_results :
  (forall results,
      (forall l, l ∈ unique_lengths_of (length_count_of results)
                 <-> (1 <= occurrences l results <= 5)%nat)
      /\ (analyze_results results).1 ≡ₚ filter (interesting results) results
      /\ Sorted (key_le pr_content_length Z.leb) (analyze_results results).1
      /\ forall l,
           filter (fun r => pr_content_length r = l) (analyze_results results).1
           = filter (fun r => pr_content_length r = l)
                    (filter (interesting results) results))
  /\ (analyze_results clustering_example).1
     = [page "/i" 7; page "/g" 42; page "/h" 42].
Proof.
  split; [|by vm_compute].
  intros results. split; [apply elem_of_unique_lengths|].
  rewrite unique_pages_eq. split; [|split].
  - apply py_sorted_Permutation.
  - apply py_sorted_Sorted, Z_leb_total.
  - intros l. apply py_sorted_stable, Z_leb_total.
Qed.

(** The pages of one status code other than 404, in the order they came. *)
Lemma non_404_lookup results (k : Z) :
  k <> 404%Z ->
  foldl group_non_404 ∅ results !! k
  = match filter (fun r => pr_status_code r = k) results with
    | [] => None
    | pages => Some pages
    end.
Proof.
  intros Hk. induction results as [|r results IH] using rev_ind; [done|].
  rewrite foldl_snoc, filter_app, filter_cons, filter_nil.
  unfold group_non_404 at 1.
  destruct (decide (pr_status_code r = k)) as [Hr|Hr].
  - rewrite decide_True by congruence. rewrite lookup_insert, decide_True by done.
    rewrite Hr, IH.
    by destruct (filter _ results).
  - rewrite app_nil_r. destruct (decide (pr_status_code r ≠ 404%Z)); [|done].
    by rewrite lookup_insert, decide_False.
Qed.



(** ** Probing *)

Lemma test_route_joined urljoin requests_get int base_url path url :
  urljoin (Str.rstrip "/" base_url +:+ "/") (Str.lstrip "/" path) = Ok url ->
  exists result,
    test_route urljoin requests_get int base_url path = Ok result
    /\ pr_url result = url
    /\ forall e, requests_get url = Raise e -> result = failed url e.
Proof.
  intros Hjoin. unfold test_route. rewrite Hjoin. cbn [bind].
  destruct (requests_get url) as [response|e]; cbn [bind].
  - destruct (content_length_header response) as [h|]; cbn [bind].
    + destruct (int h) as [n|e]; cbn [bind]; eexists; (split; [done|]); by split.
    + eexists. split; [done|]. by split.
  - eexists. split; [done|]. split; [done|]. by intros e' [= ->].
Qed.

Lemma probe_all_joined urljoin requests_get int base_url all_paths :
  Forall (fun path =>
            exists url,
              urljoin (Str.rstrip "/" base_url +:+ "/") (Str.lstrip "/" path) = Ok url)
         all_paths ->
  exists results,
    probe_all urljoin requests_get int base_url all_paths = Ok results
    /\ length results = length all_paths.
Proof.
  induction 1 as [|path all_paths [url Hjoin] _ (results & Hrun & Hlen)].
  - by exists [].
  - destruct (test_route_joined _ requests_get int _ _ _ Hjoin) as (result & Hres & _).
    exists (result :: results). cbn [probe_all]. rewrite Hres, Hrun.
    split; [done|]. simpl. by rewrite Hlen.
Qed.

(** C4, as the code has it. The URL is joined before the [try]; once it
    is joined, the probe returns one result whatever the request does,
    and a request that raises gives status code 0, content length 0,
    response time 0 and the text of the exception as error. Probing N
    paths whose URLs join gives N results. *)
Theorem test_route_total_once_joined :
  (forall urljoin requests_get int base_url path url,
      urljoin (Str.rstrip "/" base_url +:+ "/") (Str.lstrip "/" path) = Ok url ->
      exists result,
        test_route urljoin requests_get int base_url path = Ok result
        /\ pr_url result = url
        /\ forall e,
             requests_get url = Raise e ->
             pr_status_code result = 0%Z
             /\ pr_content_length result = 0%Z
             /\ pr_response_time result = 0%Z
             /\ pr_error result = Some (exn_str e))
  /\ (forall urljoin requests_get int base_url all_paths,
        Forall (fun path =>
                  exists url,
                    urljoin (Str.rstrip "/" base_url +:+ "/") (Str.lstrip "/" path)
                    = Ok url)
               all_paths ->
        exists results,
          probe_all urljoin requests_get int base_url all_paths = Ok results
          /\ length results = length all_paths).
Proof.
  split; [|apply probe_all_joined].
  intros urljoin requests_get int base_url path url Hjoin.
  destruct (test_route_joined _ requests_get int _ _ _ Hjoin)
    as (result & Hres & Hurl & Hfail).
  exists result. split; [done|]. split; [done|].
  intros e He. by rewrite (Hfail e He).
Qed.

(** The theorem on the origin [https://x.test] and two paths, every
    request refused. *)
Lemma test_route_total_once_joined_witness :
  (exists result,
      test_route urljoin_sample requests_get_refused int_sample
        "https://x.test" "/login" = Ok result
      /\ pr_url result = "https://x.test/login"%string
      /\ forall e,
           requests_get_refused "https://x.test/login" = Raise e ->
           pr_status_code result = 0%Z
           /\ pr_content_length result = 0%Z
           /\ pr_response_time result = 0%Z
           /\ pr_error result = Some (exn_str e))
  /\ exists results,
       probe_all urljoin_sample requests_get_refused int_sample
         "https://x.test" ["/login"; "/logout"]%string = Ok results
       /\ length results = 2%nat.
Proof.
  split.
  - apply (proj1 test_route_total_once_joined urljoin_sample requests_get_refused
             int_sample "https://x.test" "/login" "https://x.test/login").
    reflexivity.
  - apply (proj2 test_route_total_once_joined urljoin_sample requests_get_refused
             int_sample "https://x.test" ["/login"; "/logout"]%string).
    repeat constructor; eexists; reflexivity.
Defined.

(** C4, as stated, fails on a base that does not join: the exception of
    [urljoin] leaves [test_route], and with it the whole run. *)
Lemma test_route_raises_on_bad_base :
  test_route urljoin_sample requests_get_refused int_sample "http://[" "/a"
  = Raise (ValueError "Invalid IPv6 URL")
  /\ probe_all urljoin_sample requests_get_refused int_sample "http://[" ["/a"]%string
     = Raise (ValueError "Invalid IPv6 URL").
Proof. split; reflexivity. Qed.

(** A probe that fails and a probe that answers. *)
Example test_route_examples :
  test_route urljoin_sample requests_get_refused int_sample "https://x.test/" "/login"
  = Ok (ProbeResult "https://x.test/login" 0 0 0 (Some "connection refused"))
  /\ test_route urljoin_sample
       (fun _ => Ok (Response 200 "hello" None 1500)) int_sample
       "https://x.test" "login"
     = Ok (ProbeResult "https://x.test/login" 200 5 1500 None)
  /\ test_route urljoin_sample
       (fun _ => Ok (Response 200 "hello" (Some "5x") 1500)) int_sample
       "https://x.test" "login"
     = Ok (ProbeResult "https://x.test/login" 0 0 0
             (Some "invalid literal for int()")).
Proof. repeat split; reflexivity. Qed.


(** * Further properties of the code *)

(** ** The grouping by status code *)

Lemma non_404_lookup_404 results : foldl group_non_404 ∅ results !! 404%Z = None.
Proof.
  induction results as [|r results IH] using rev_ind; [done|].
  rewrite foldl_snoc. unfold group_non_404 at 1.
  destruct (decide (pr_status_code r ≠ 404%Z)); [|done].
  by rewrite lookup_insert, decide_False.
Qed.

(** X1: the second view of [analyze_results] never has the key 404, and
    under every other status code it lists exactly the results of that
    code, in the order they came; a code no result has is no key. *)
Theorem non_404_pages_groups_by_status (results : list probe_result) :
  (analyze_results results).2 !! 404%Z = None
  /\ forall k, k <> 404%Z ->
       (analyze_results results).2 !! k
       = match filter (fun r => pr_status_code r = k) results with
         | [] => None
         | pages => Some pages
         end.
Proof.
  unfold analyze_results. cbn [snd]. split.
  - apply non_404_lookup_404.
  - intros k Hk. by apply non_404_lookup.
Qed.

(** ** Few results *)

Lemma filter_all {A} (P : A -> Prop) `{forall x, Decision (P x)} (l : list A) :
  Forall P l -> filter P l = l.
Proof.
  induction 1 as [|x l Hx Hl IH]; [done|].
  by rewrite filter_cons, decide_True, IH.
Qed.

(** X2: with five results or fewer no content length can occur more
    than five times, so every result is reported as a differential page:
    [unique_pages] is the whole list, sorted. *)
Theorem few_results_are_all_unique (results : list probe_result) :
  (length results <= 5)%nat ->
  (analyze_results results).1 = py_sorted pr_content_length Z.leb results.
Proof.
  intros Hlen. rewrite unique_pages_eq. f_equal. apply filter_all.
  apply Forall_forall. intros r Hr. unfold interesting, occurrences. split.
  - assert (r ∈ filter (fun r' => pr_content_length r' = pr_content_length r) results)
      as Hin by by apply list_elem_of_filter.
    destruct (filter _ results); [by apply elem_of_nil in Hin|simpl; lia].
  - etrans; [apply length_filter|done].
Qed.

Lemma few_results_are_all_unique_witness :
  (analyze_results [page "/a" 500; page "/b" 500; page "/c" 80]).1
  = py_sorted pr_content_length Z.leb [page "/a" 500; page "/b" 500; page "/c" 80].
Proof.
  apply (few_results_are_all_unique [page "/a" 500; page "/b" 500; page "/c" 80]).
  simpl. lia.
Defined.

(** ** What else the merge loop keeps *)

Lemma merge_into_type existing route : rt_type (merge_into existing route) = rt_type existing.
Proof.
  unfold merge_into. destruct (decide _); destruct (rt_name route);
    simpl; try done; destruct (rt_name _) as [n'|]; try done;
    by destruct (truthy n').
Qed.

Lemma record_at_None p l :
  record_at p l = None <-> filter (fun r => normalize_path (rt_path r) = p) l = [].
Proof.
  split.
  - intros Hnone. destruct (filter _ l) as [|r l'] eqn:Hf; [done|].
    assert (r ∈ filter (fun r => normalize_path (rt_path r) = p) l) as Hin
      by (rewrite Hf; apply list_elem_of_here).
    apply list_elem_of_filter in Hin as [Hp Hin].
    assert (is_Some (record_at p l)) as [e He]
      by (apply record_at_Some_iff; eauto).
    congruence.
  - intros Hf. destruct (record_at p l) as [e|] eqn:He; [|done].
    destruct (proj1 (record_at_Some_iff p l)) as (r & Hin & Hp); [by eauto|].
    assert (r ∈ filter (fun r => normalize_path (rt_path r) = p) l) as Hr
      by by apply list_elem_of_filter.
    rewrite Hf in Hr. by apply elem_of_nil in Hr.
Qed.

Lemma record_at_first p l r :
  first_candidate p l = Some r ->
  exists e, record_at p l = Some e /\ rt_type e = rt_type r /\ rt_path e = p.
Proof.
  unfold first_candidate. revert r.
  induction l as [|x l IH] using rev_ind; intros r; [done|].
  rewrite filter_app, filter_cons, filter_nil, record_at_snoc. unfold record_step.
  destruct (filter (fun r => normalize_path (rt_path r) = p) l) as [|r0 l0] eqn:Hf.
  - apply record_at_None in Hf. rewrite Hf. simpl.
    destruct (decide (normalize_path (rt_path x) = p)) as [Hx|Hx]; [|done].
    intros [= <-]. rewrite <- Hx, String.eqb_refl. by eexists.
  - simpl. intros [= <-].
    destruct (IH r0 eq_refl) as (e & -> & Htype & Hpath).
    destruct (String.eqb p (normalize_path (rt_path x))); [|by eauto].
    eexists. split; [done|]. by rewrite merge_into_type, merge_into_path.
Qed.

(** X3: the [type] of a record is that of the first candidate found for
    its path; the candidates merged into it later add sources and, at
    most, a name. *)
Theorem record_type_is_the_first_candidates (routes : dict (list route_rec))
    (e : route_rec) :
  e ∈ save_routes_to_file routes ->
  exists r, first_candidate (rt_path e) (candidates routes) = Some r
            /\ rt_type e = rt_type r.
Proof.
  intros He%save_routes_record. unfold first_candidate.
  destruct (filter _ (candidates routes)) as [|r l] eqn:Hf.
  - apply record_at_None in Hf. congruence.
  - exists r. split; [done|].
    destruct (record_at_first (rt_path e) (candidates routes) r) as (e' & He' & Ht & _).
    { unfold first_candidate. by rewrite Hf. }
    congruence.
Qed.

Lemma record_type_is_the_first_candidates_witness :
  exists r,
    first_candidate "/login"
      (candidates [("a.js", [Route GeneralRoute None "/login/" "a.js"]);
                   ("b.js", [Route VueRoute (Some (PyStr "Login")) "/login" "b.js"])])
    = Some r
    /\ GeneralRoute = rt_type r.
Proof.
  apply (record_type_is_the_first_candidates
           [("a.js", [Route GeneralRoute None "/login/" "a.js"]);
            ("b.js", [Route VueRoute (Some (PyStr "Login")) "/login" "b.js"])]
           (Route GeneralRoute (Some (PyStr "Login")) "/login" "a.js, b.js")).
  vm_compute. constructor.
Defined.

(** ** Canonicalising twice *)

Lemma normalize_path_fixed p : normalize_path (normalize_path p) = normalize_path p.
Proof.
  pose proof (proj1 (collapse_runs_shape p) false) as Hq.
  rewrite (normalize_path_unfold (normalize_path p)). cbn zeta.
  assert (Hn : no_adjacent_slashes (normalize_path p) = true
               /\ (Str.endswith (normalize_path p) "/" = true ->
                   normalize_path p = "/"%string)).
  { rewrite normalize_path_unfold. cbn zeta.
    set (q := collapse_runs false p) in *.
    destruct (Str.endswith q "/") eqn:Hend; [|by rewrite andb_false_r, Hend].
    destruct (1 <? String.length q)%nat eqn:Hlen; cbn [andb].
    - apply Nat.ltb_lt in Hlen.
      destruct (rstrip_trailing_slash _ Hq Hlen Hend) as (-> & _ & Hend' & Hadj').
      split; [done|congruence].
    - split; [done|]. intros _. apply length_one_slash; [|done].
      apply Nat.ltb_ge in Hlen. pose proof (endswith_length _ Hend). lia. }
  destruct Hn as [Hadj Hend].
  rewrite (proj1 (collapse_runs_fixed _ Hadj)).
  destruct (Str.endswith (normalize_path p) "/") eqn:He.
  - by rewrite (Hend eq_refl).
  - by rewrite andb_false_r.
Qed.

Lemma set_path_same r : set_path (rt_path r) r = r.
Proof. by destruct r. Qed.

(** Candidates with distinct paths, all normalised, are stored as they
    are. *)
Lemma canon_of_inventory l :
  NoDup (rt_path <$> l) ->
  Forall (fun r => normalize_path (rt_path r) = rt_path r) l ->
  foldl add_route [] l = (fun r => (rt_path r, r)) <$> l.
Proof.
  induction l as [|x l IH] using rev_ind; intros Hnd Hnorm; [done|].
  rewrite fmap_app in Hnd. apply NoDup_app in Hnd as (Hnd & Hx & _).
  apply Forall_app in Hnorm as [Hnorm Hxn]. apply Forall_inv in Hxn.
  rewrite foldl_snoc, IH by done. unfold add_route. rewrite Hxn.
  assert (dict_get (rt_path x) ((fun r => (rt_path r, r)) <$> l) = None) as ->.
  { apply dict_get_None. rewrite <- list_fmap_compose. intros Hin.
    apply (Hx _ Hin). apply list_elem_of_here. }
  rewrite dict_set_fresh, set_path_same, fmap_app; [done|].
  apply dict_get_None. rewrite <- list_fmap_compose. intros Hin.
  apply (Hx _ Hin). apply list_elem_of_here.
Qed.

Lemma py_sorted_of_Sorted {A K} (key : A -> K) (le : K -> K -> bool) (l : list A) :
  Sorted (key_le key le) l -> py_sorted key le l = l.
Proof.
  unfold py_sorted. induction 1 as [|x l Hl IH Hx]; [done|].
  cbn [foldr]. rewrite IH. destruct Hx as [|y l Hxy]; [done|].
  simpl. unfold key_le in Hxy. by rewrite Hxy.
Qed.

Lemma save_routes_normalized routes :
  Forall (fun r => normalize_path (rt_path r) = rt_path r) (save_routes_to_file routes).
Proof.
  apply Forall_forall. intros e He.
  assert (rt_path e ∈ rt_path <$> save_routes_to_file routes) as Hin
    by by apply list_elem_of_fmap_2.
  rewrite save_routes_paths, elem_of_keys_iff in Hin.
  apply record_at_Some_iff in Hin as (r & _ & <-). apply normalize_path_fixed.
Qed.

Lemma save_routes_NoDup routes : NoDup (rt_path <$> save_routes_to_file routes).
Proof. rewrite save_routes_paths. apply canon_well_keyed. Qed.

(** X4: canonicalising a list that [save_routes_to_file] produced gives
    that list back: its paths are normalised, distinct and sorted
    already, so nothing is merged, renamed or moved. *)
Theorem save_routes_to_file_idempotent (routes : dict (list route_rec)) (k : string) :
  save_routes_to_file [(k, save_routes_to_file routes)] = save_routes_to_file routes.
Proof.
  unfold save_routes_to_file at 1. unfold unique_routes_of, dict_values.
  cbn [map snd concat]. rewrite app_nil_r.
  rewrite canon_of_inventory
    by (apply save_routes_NoDup || apply save_routes_normalized).
  rewrite map_map. cbn [snd]. rewrite map_id.
  apply py_sorted_of_Sorted, save_routes_Sorted.
Qed.

(** ** The statistics of the summary *)

Lemma total_routes_candidates routes : total_routes routes = length (candidates routes).
Proof.
  unfold total_routes, candidates.
  induction (dict_values routes) as [|file_routes l IH] using rev_ind; [done|].
  by rewrite foldl_snoc, concat_app, length_app, IH, concat_cons, app_nil_r.
Qed.

Lemma add_route_length d r :
  length (add_route d r)
  = match dict_get (normalize_path (rt_path r)) d with
    | Some _ => length d
    | None => S (length d)
    end.
Proof.
  unfold add_route.
  destruct (dict_get _ d) as [existing|] eqn:Hget.
  - by erewrite <- (length_fmap fst), dict_set_keys, length_fmap.
  - rewrite dict_set_fresh, length_app by done. simpl. lia.
Qed.

Lemma canon_length l : (length (foldl add_route [] l) <= length l)%nat.
Proof.
  induction l as [|r l IH] using rev_ind; [done|].
  rewrite foldl_snoc, length_app, add_route_length. simpl.
  destruct (dict_get _ _); lia.
Qed.

(** X5: the number of routes the summary reports is the number of
    candidates, counted before they are merged; the list written out is
    never longer, and as long exactly when no two candidates share a
    normalised path. *)
Theorem summary_counts_candidates (routes : dict (list route_rec)) :
  total_routes routes = length (candidates routes)
  /\ (length (save_routes_to_file routes) <= total_routes routes)%nat
  /\ (NoDup (normalize_path ∘ rt_path <$> candidates routes)
      <-> length (save_routes_to_file routes) = total_routes routes).
Proof.
  split; [apply total_routes_candidates|].
  rewrite total_routes_candidates.
  assert (Hlen : length (save_routes_to_file routes)
                 = length (foldl add_route [] (candidates routes))).
  { unfold save_routes_to_file, unique_routes_of, dict_values.
    fold (candidates routes).
    by rewrite (Permutation_length (py_sorted_Permutation _ _ _)), length_map. }
  split; [rewrite Hlen; apply canon_length|].
  rewrite Hlen. clear Hlen.
  induction (candidates routes) as [|r l IH] using rev_ind; [split; [done|constructor]|].
  rewrite fmap_app, foldl_snoc, length_app, add_route_length. simpl.
  pose proof (canon_length l) as Hle.
  fold (record_at (normalize_path (rt_path r)) l).
  destruct (record_at _ l) as [existing|] eqn:Hget.
  - split; [|lia]. intros (_ & Hr & _)%NoDup_app. exfalso.
    destruct (proj1 (record_at_Some_iff (normalize_path (rt_path r)) l))
      as (r' & Hin & Heq); [by eexists|].
    apply (Hr (normalize_path (rt_path r))); [|apply list_elem_of_here].
    apply list_elem_of_fmap. exists r'. by split.
  - rewrite NoDup_app. split.
    + intros (Hl & _ & _). apply IH in Hl. lia.
    + intros Hlen. split; [apply IH; lia|]. split; [|apply NoDup_singleton].
      intros p Hp ->%list_elem_of_singleton.
      apply list_elem_of_fmap in Hp as (r' & Heq & Hin). simpl in Heq.
      assert (is_Some (record_at (normalize_path (rt_path r)) l)) as [? Hsome]
        by (apply record_at_Some_iff; eauto).
      congruence.
Qed.

Lemma counted_incr t t' d :
  counted t (incr t' d) = if decide (t = t') then S (counted t d) else counted t d.
Proof.
  induction d as [|[t0 n] d IH]; simpl.
  - by destruct (decide (t = t')).
  - destruct (decide (t' = t0)) as [->|Ht0]; simpl.
    + by destruct (decide (t = t0)).
    + rewrite IH. destruct (decide (t = t0)) as [->|]; [|done].
      by rewrite decide_False by done.
Qed.

Lemma sum_incr t d : sum_list (incr t d).*2 = S (sum_list d.*2).
Proof.
  induction d as [|[t0 n] d IH]; [done|]. simpl.
  destruct (decide (t = t0)); csimpl; [done|]. rewrite IH. lia.
Qed.

Lemma incr_positive t d :
  Forall (fun kv => (1 <= kv.2)%nat) d -> Forall (fun kv => (1 <= kv.2)%nat) (incr t d).
Proof.
  induction 1 as [|[t0 n] d Hn Hd IH]; simpl.
  - by repeat constructor.
  - destruct (decide (t = t0)); constructor; simpl in *; auto with lia.
Qed.

Lemma route_types_candidates routes :
  route_types_of routes
  = foldl (fun route_types route => incr (rt_type route) route_types) []
          (candidates routes).
Proof.
  unfold route_types_of, candidates.
  induction (dict_values routes) as [|file_routes l IH] using rev_ind; [done|].
  by rewrite foldl_snoc, concat_app, foldl_app, IH, concat_cons, app_nil_r.
Qed.

(** X6: the distribution by type accounts for every candidate: the count
    kept for a type is the number of candidates of that type, the counts
    add up to the number of routes reported, and only a type that
    occurs has an entry. *)
Theorem route_types_account_for_all (routes : dict (list route_rec)) :
  (forall t, counted t (route_types_of routes)
             = length (filter (fun r => rt_type r = t) (candidates routes)))
  /\ sum_list (route_types_of routes).*2 = total_routes routes
  /\ Forall (fun kv => (1 <= kv.2)%nat) (route_types_of routes).
Proof.
  rewrite route_types_candidates, total_routes_candidates.
  induction (candidates routes) as [|r l (IHc & IHs & IHp)] using rev_ind.
  - split; [done|]. split; [done|constructor].
  - rewrite foldl_snoc. split; [|split].
    + intros t. rewrite counted_incr, filter_app, length_app, filter_cons, filter_nil, IHc.
      destruct (decide (t = rt_type r)) as [->|Hne].
      * rewrite decide_True by done. simpl. lia.
      * rewrite decide_False by done. simpl. lia.
    + rewrite sum_incr, IHs, length_app. simpl. lia.
    + by apply incr_positive.
Qed.

(** ** Separators around the join of origin and path *)

Lemma rstrip_app_slash s : Str.rstrip "/" (s +:+ "/") = Str.rstrip "/" s.
Proof.
  induction s as [|c s IH]; [done|].
  rewrite append_cons. cbn [Str.rstrip]. by rewrite IH.
Qed.

(** X7: trailing separators of the base and leading separators of the
    path make no difference to a probe: the URL is built from the base
    without them and the path without them. *)
Theorem test_route_ignores_outer_separators
    (urljoin : string -> string -> res string)
    (requests_get : string -> res response) (int : string -> res Z)
    (base_url path : string) :
  test_route urljoin requests_get int (base_url +:+ "/") path
  = test_route urljoin requests_get int base_url path
  /\ test_route urljoin requests_get int base_url (String "/" path)
     = test_route urljoin requests_get int base_url path.
Proof.
  unfold test_route. by rewrite rstrip_app_slash.
Qed.

(** ** What normalisation leaves alone *)

Lemma collapse_runs_facts b s :
  drop_slashes (collapse_runs b s) = drop_slashes s
  /\ (String.length (collapse_runs b s) <= String.length s)%nat.
Proof.
  revert b. induction s as [|c t IH]; intros b; [done|].
  cbn [collapse_runs drop_slashes String.length].
  destruct (is_slash c) eqn:Hc.
  - destruct b; [destruct (IH true); split; [done|lia]|].
    cbn [drop_slashes String.length]. rewrite Hc.
    destruct (IH true). split; [done|lia].
  - cbn [drop_slashes String.length]. rewrite Hc.
    destruct (IH false) as [-> ?]. split; [done|lia].
Qed.

Lemma collapse_runs_head s :
  starts_with_slash (collapse_runs false s) = starts_with_slash s
  /\ (collapse_runs false s = EmptyString <-> s = EmptyString).
Proof.
  destruct s as [|c t]; [done|]. cbn [collapse_runs starts_with_slash].
  destruct (is_slash c) eqn:Hc; cbn [starts_with_slash]; by rewrite ?Hc.
Qed.

Lemma drop_last_facts s :
  Str.endswith s "/" = true ->
  drop_slashes (drop_last s) = drop_slashes s
  /\ (String.length (drop_last s) <= String.length s)%nat
  /\ ((1 < String.length s)%nat ->
      starts_with_slash (drop_last s) = starts_with_slash s).
Proof.
  induction s as [|c t IH]; [done|]. destruct t as [|d u].
  - rewrite endswith_one. intros Hc. cbn [drop_last drop_slashes]. rewrite Hc.
    split; [done|]. split; [simpl; lia|]. simpl. lia.
  - rewrite endswith_cons2. intros Hend. destruct (IH Hend) as (Hd & Hl & _).
    change (drop_last (String c (String d u)))
      with (String c (drop_last (String d u))).
    cbn [drop_slashes]. rewrite Hd. split; [done|]. split; [|done].
    cbn [String.length] in *. lia.
Qed.

(** X8: normalisation removes separators and nothing else: the other
    characters stay, in their order; the result is never longer; a path
    that starts with a separator still does, and only the empty path
    becomes empty. *)
Theorem normalize_path_only_drops_separators (p : string) :
  drop_slashes (normalize_path p) = drop_slashes p
  /\ (String.length (normalize_path p) <= String.length p)%nat
  /\ starts_with_slash (normalize_path p) = starts_with_slash p
  /\ (normalize_path p = EmptyString <-> p = EmptyString).
Proof.
  rewrite normalize_path_unfold. cbn zeta.
  pose proof (proj1 (collapse_runs_shape p) false) as Hadj.
  destruct (collapse_runs_facts false p) as [Hdrop Hlen].
  destruct (collapse_runs_head p) as [Hhead Hempty].
  set (q := collapse_runs false p) in *.
  destruct (Str.endswith q "/") eqn:Hend; [|by rewrite andb_false_r].
  destruct (1 <? String.length q)%nat eqn:Hq; cbn [andb]; [|done].
  apply Nat.ltb_lt in Hq.
  destruct (rstrip_trailing_slash q Hadj Hq Hend) as (-> & Hne & _ & _).
  destruct (drop_last_facts q Hend) as (Hd & Hl & Hh).
  split; [congruence|]. split; [lia|]. split; [by rewrite Hh|].
  split; [done|]. intros ->. destruct Hempty as [_ Hempty].
  rewrite Hempty in Hq by done. simpl in Hq. lia.
Qed.


(** ** The groups of a match *)

Lemma m_rep_calls {R} greedy p lo hi s cs (k : string -> caps -> option R) res :
  m_rep greedy p lo hi s cs k = Some res -> exists t, k t cs = Some res.
Proof.
  revert lo hi. induction s as [|c t IH]; intros lo hi; cbn [m_rep].
  - destruct (lo =? 0)%nat; [by eauto|done].
  - destruct (p c && room hi).
    + destruct greedy; unfold orelse.
      * destruct (m_rep true p (pred lo) (pred <$> hi) t cs k) eqn:Hmore.
        -- intros [= <-]. by eapply IH.
        -- destruct (lo =? 0)%nat; [by eauto|done].
      * destruct (if (lo =? 0)%nat then k (String c t) cs else None) eqn:Hstop.
        -- intros [= <-]. destruct (lo =? 0)%nat; [by eauto|done].
        -- apply IH.
    + destruct (lo =? 0)%nat; [by eauto|done].
Qed.

Lemma extends_refl r cs : must r = [] -> extends r cs cs.
Proof.
  intros Hr. split; [done|]. split; [done|]. rewrite Hr.
  by intros i ?%elem_of_nil.
Qed.

Lemma is_set_insert (cs : list (option string)) j i s :
  is_set cs j -> is_set (<[i := Some s]> cs) j.
Proof.
  intros [s' Hs']. destruct (decide (i = j)) as [->|Hne].
  - exists s. apply list_lookup_insert_eq. by eapply lookup_lt_Some.
  - exists s'. by rewrite list_lookup_insert_ne.
Qed.

Lemma m_calls {R} r s cs (k : string -> caps -> option R) res :
  m r s cs k = Some res ->
  exists t cs', k t cs' = Some res /\ extends r cs cs'.
Proof.
  revert s cs k res. induction r as [l|p|greedy lo hi p|r1 IH1 r2 IH2|r1 IH1 r2 IH2|i r1 IH1| |];
    intros s cs k res; cbn [m]; unfold caps.
  - destruct (strip_prefix l s); [|done]. eauto using extends_refl.
  - destruct s as [|c t]; [done|]. destruct (p c); [|done].
    eauto using extends_refl.
  - intros (t & Ht)%m_rep_calls. eauto using extends_refl.
  - intros (t1 & cs1 & H2 & Hlen1 & Hmono1 & Hmust1)%IH1.
    apply IH2 in H2 as (t2 & cs2 & Hk & Hlen2 & Hmono2 & Hmust2).
    exists t2, cs2. split; [done|]. split; [congruence|]. split; [by auto|].
    cbn [must]. intros i [Hi|Hi]%elem_of_app Hrange.
    + by apply Hmono2, Hmust1.
    + apply Hmust2; [done|]. by rewrite Hlen1.
  - unfold orelse. destruct (m r1 s cs k) eqn:H1.
    + intros [= <-]. apply IH1 in H1 as (t & cs' & Hk & Hlen & Hmono & _).
      exists t, cs'. split; [done|]. split; [done|]. split; [done|].
      by intros i ?%elem_of_nil.
    + intros (t & cs' & Hk & Hlen & Hmono & _)%IH2.
      exists t, cs'. split; [done|]. split; [done|]. split; [done|].
      by intros i ?%elem_of_nil.
  - intros (t & cs1 & Hk & Hlen & Hmono & Hmust)%IH1.
    eexists _, _. split; [exact Hk|]. split; [by rewrite <- Hlen, length_insert|].
    split; [by intros j ?; apply is_set_insert, Hmono|].
    cbn [must]. intros j [->|Hj]%elem_of_cons Hrange.
    + eexists. apply list_lookup_insert_eq. lia.
    + by apply is_set_insert, Hmust.
  - destruct (at_eol s); [|done]. eauto using extends_refl.
  - eauto using extends_refl.
Qed.

Lemma match_here_groups r s t cs :
  match_here r s = Some (t, cs) ->
  length cs = ngroups r
  /\ forall i, i ∈ must r -> (1 <= i <= ngroups r)%nat -> is_set cs (pred i).
Proof.
  unfold match_here. intros (t' & cs' & [= -> ->] & Hlen & _ & Hmust)%m_calls.
  rewrite length_replicate in *. by split.
Qed.

Lemma finditer_go_matches r skip s cs :
  cs ∈ finditer_go r skip s -> exists s' t, match_here r s' = Some (t, cs).
Proof.
  revert skip. induction s as [|c s IH]; intros skip.
  - destruct skip; cbn [finditer_go]; [|by intros ?%elem_of_nil].
    destruct (match_here r "") as [[t cs0]|] eqn:Hm; [|by intros ?%elem_of_nil].
    intros [->|[]%elem_of_nil]%elem_of_cons. eauto.
  - destruct skip; cbn [finditer_go]; [|by apply IH].
    destruct (match_here r (String c s)) as [[t cs0]|] eqn:Hm; [|by apply IH].
    intros [->|Hin]%elem_of_cons; [by eauto|]. by eapply IH.
Qed.

(** The groups of a match of a pattern that sets all its groups are
    strings, and there is at least one. *)
Lemma finditer_groups r s cs :
  sets_all_groups r = true ->
  cs ∈ finditer r s ->
  (1 <= length cs)%nat /\ Forall (fun o => is_Some o) cs.
Proof.
  unfold sets_all_groups. intros [Hall Hpos]%andb_true_iff.
  intros (s' & t & [Hlen Hmust]%match_here_groups)%finditer_go_matches.
  apply Nat.leb_le in Hpos. split; [lia|].
  apply Forall_lookup. intros j o Hj.
  assert (j < ngroups r)%nat as Hlt by (rewrite <- Hlen; by eapply lookup_lt_Some).
  destruct (Hmust (S j)) as [x Hx]; [|lia|].
  - rewrite forallb_forall in Hall.
    specialize (Hall (S j)). rewrite bool_decide_eq_true in Hall.
    apply Hall, in_seq. lia.
  - simpl in Hx. rewrite Hx in Hj. injection Hj as <-. by eexists.
Qed.

Example catalogue_sets_all_groups :
  forallb sets_all_groups (vue_patterns ++ react_patterns ++ general_patterns) = true.
Proof. vm_compute. reflexivity. Qed.

(** ** The extractor on every text *)

Lemma group_of_set cs i :
  Forall (fun o : option string => is_Some o) cs -> (1 <= i <= length cs)%nat ->
  exists s, group cs i = Ok (PyStr s).
Proof.
  intros Hall Hi. destruct i as [|j]; [lia|]. cbn [group]. unfold caps in *.
  destruct (lookup_lt_is_Some_2 cs j) as [o Ho]; [lia|]. rewrite Ho.
  destruct (proj1 (Forall_lookup _ _) Hall j o Ho) as [s ->]. by eexists.
Qed.

Lemma on_match_ok relative_path route_type routes cs :
  (1 <= length cs)%nat -> Forall (fun o : option string => is_Some o) cs ->
  exists routes', on_match relative_path route_type routes cs = Ok routes'.
Proof.
  intros Hlen Hall. unfold on_match.
  destruct (1 <? length cs)%nat eqn:Htwo.
  - apply Nat.ltb_lt in Htwo.
    destruct (group_of_set cs 1 Hall) as [n ->]; [lia|].
    destruct (group_of_set cs 2 Hall) as [p ->]; [lia|]. cbn [bind].
    destruct (is_valid_route_str p) as [[|] ->]; cbn [bind]; by eexists.
  - destruct (group_of_set cs 1 Hall) as [p ->]; [lia|]. cbn [bind].
    destruct (truthy (PyStr p) && _); [|by eexists].
    destruct (is_valid_route_str p) as [[|] ->]; cbn [bind]; by eexists.
Qed.

Lemma for_each_ok {A S} (P : A -> Prop) (f : S -> A -> res S) (l : list A) :
  (forall s a, P a -> exists s', f s a = Ok s') ->
  Forall P l -> forall s, exists s', for_each f l s = Ok s'.
Proof.
  intros Hf. induction 1 as [|a l Ha Hl IH]; intros s; cbn [for_each]; [by eexists|].
  destruct (Hf s a Ha) as [s1 ->]. cbn [bind]. apply IH.
Qed.

Lemma extract_with_patterns_ok content relative_path patterns route_type routes :
  forallb sets_all_groups patterns = true ->
  exists routes',
    extract_with_patterns content relative_path patterns route_type routes = Ok routes'.
Proof.
  intros Hall. unfold extract_with_patterns.
  apply (for_each_ok (fun r => sets_all_groups r = true)).
  - intros s r Hr.
    apply (for_each_ok (fun cs => (1 <= length cs)%nat
                                  /\ Forall (fun o : option string => is_Some o) cs)).
    + intros ? cs [? ?]. by apply on_match_ok.
    + apply Forall_forall. intros cs Hcs. by apply (finditer_groups r content).
  - apply Forall_forall. intros r Hr%list_elem_of_In.
    by apply (proj1 (forallb_forall _ _) Hall).
Qed.

(** X9: extraction raises on no text. Every pattern of the catalogue
    sets all its groups in every match, so [match.group] never gives
    [None] and the filter is only ever asked about strings. *)
Theorem extract_routes_from_js_never_raises (content relative_path : string) :
  exists routes, extract_routes_from_js content relative_path = Ok routes.
Proof.
  unfold extract_routes_from_js.
  destruct (extract_with_patterns_ok content relative_path vue_patterns VueRoute [])
    as [r1 ->]; [by vm_compute|]. cbn [bind].
  destruct (extract_with_patterns_ok content relative_path react_patterns ReactRoute r1)
    as [r2 ->]; [by vm_compute|]. cbn [bind].
  by apply extract_with_patterns_ok.
Qed.

Lemma replace_chr_removes a b s :
  a <> b -> Str.chr_in a (Str.replace_chr a b s) = false.
Proof.
  intros Hab. induction s as [|c s IH]; [done|].
  cbn [Str.replace_chr Str.chr_in]. rewrite IH, orb_false_r.
  unfold Str.chr_eqb. destruct (Ascii.eqb_spec c a) as [->|Hc].
  - by apply Ascii.eqb_neq.
  - apply Ascii.eqb_neq. congruence.
Qed.

Lemma on_match_emits_valid relative_path route_type routes cs routes' :
  Forall (fun r => is_valid_route (PyStr (rt_path r)) = Ok true
                   /\ rt_source_file r = source_file relative_path) routes ->
  on_match relative_path route_type routes cs = Ok routes' ->
  Forall (fun r => is_valid_route (PyStr (rt_path r)) = Ok true
                   /\ rt_source_file r = source_file relative_path) routes'.
Proof.
  intros Hall. unfold on_match.
  destruct (1 <? length cs)%nat.
  - destruct (group cs 1) as [route_name|]; cbn [bind]; [|done].
    destruct (group cs 2) as [route_path|]; cbn [bind]; [|done].
    destruct (is_valid_route route_path) as [[|]|] eqn:Hvalid; cbn [bind]; [| |done].
    + destruct route_path; intros [= <-]; [done|].
      apply Forall_app; split; [done|]. by repeat constructor.
    + by intros [= <-].
  - destruct (group cs 1) as [[|p]|]; cbn [bind]; [by intros [= <-]| |done].
    destruct (truthy (PyStr p) && _); [|by intros [= <-]].
    destruct (is_valid_route (PyStr p)) as [[|]|] eqn:Hvalid; cbn [bind]; [| |done].
    + intros [= <-]. apply Forall_app; split; [done|]. by repeat constructor.
    + by intros [= <-].
Qed.

Lemma extract_routes_valid content relative_path routes :
  extract_routes_from_js content relative_path = Ok routes ->
  Forall (fun r => is_valid_route (PyStr (rt_path r)) = Ok true
                   /\ rt_source_file r = source_file relative_path) routes.
Proof.
  unfold extract_routes_from_js.
  destruct (extract_with_patterns _ _ vue_patterns _ _) as [r1|] eqn:H1;
    cbn [bind]; [|done].
  destruct (extract_with_patterns _ _ react_patterns _ _) as [r2|] eqn:H2;
    cbn [bind]; [|done].
  intros H3.
  assert (Hstep : forall patterns route_type rs rs',
             Forall (fun r => is_valid_route (PyStr (rt_path r)) = Ok true
                              /\ rt_source_file r = source_file relative_path) rs ->
             extract_with_patterns content relative_path patterns route_type rs
             = Ok rs' ->
             Forall (fun r => is_valid_route (PyStr (rt_path r)) = Ok true
                              /\ rt_source_file r = source_file relative_path) rs').
  { intros patterns route_type rs rs' Hrs. unfold extract_with_patterns.
    apply (for_each_invariant
             (Forall (fun r => is_valid_route (PyStr (rt_path r)) = Ok true
                               /\ rt_source_file r = source_file relative_path)));
      [|done].
    intros s pattern s' Hs.
    apply (for_each_invariant
             (Forall (fun r => is_valid_route (PyStr (rt_path r)) = Ok true
                               /\ rt_source_file r = source_file relative_path)));
      [|done].
    intros ? ? ?. apply on_match_emits_valid. }
  eapply Hstep; [|exact H3]. eapply Hstep; [|exact H2].
  eapply Hstep; [|exact H1]. constructor.
Qed.

(** X10: every route the extractor emits has a path the filter accepts,
    so a non-empty one, and carries as [source_file] the relative path of
    the file with every backslash turned into a separator. *)
Theorem emitted_routes_are_valid (content relative_path : string)
    (routes : list route_rec) :
  extract_routes_from_js content relative_path = Ok routes ->
  Forall (fun r => is_valid_route (PyStr (rt_path r)) = Ok true
                   /\ rt_path r <> EmptyString
                   /\ rt_source_file r = Str.replace_chr Str.backslash "/" relative_path
                   /\ Str.chr_in Str.backslash (rt_source_file r) = false)
         routes.
Proof.
  intros Hall%extract_routes_valid.
  eapply Forall_impl; [exact Hall|]. intros r [Hvalid Hsource]. simpl.
  split; [done|]. split; [|split; [done|]].
  - intros Hempty. rewrite Hempty in Hvalid. discriminate Hvalid.
  - rewrite Hsource. by apply replace_chr_removes.
Qed.

Lemma emitted_routes_are_valid_witness :
  Forall (fun r => is_valid_route (PyStr (rt_path r)) = Ok true
                   /\ rt_path r <> EmptyString
                   /\ rt_source_file r = Str.replace_chr Str.backslash "/" "site\js\app.js"
                   /\ Str.chr_in Str.backslash (rt_source_file r) = false)
         [Route VueRoute None "/users/:id" "site/js/app.js";
          Route VueRoute None "/users/:id" "site/js/app.js"].
Proof.
  apply (emitted_routes_are_valid "{ path: '/users/:id' }" "site\js\app.js").
  vm_compute. reflexivity.
Defined.

(** ** Reading a directory *)

Lemma process_js_files_snoc files f :
  process_js_files (files ++ [f])
  = match routes_of_file f with
    | [] => process_js_files files
    | routes =>
        dict_set (jf_key f)
          (default [] (dict_get (jf_key f) (process_js_files files)) ++ routes)
          (process_js_files files)
    end.
Proof.
  unfold process_js_files, routes_of_file. rewrite foldl_snoc.
  by destruct (bind _ _) as [[|r routes]|].
Qed.

Lemma process_js_files_app files files' :
  process_js_files (files ++ files')
  = foldl (fun all_routes f =>
             match routes_of_file f with
             | [] => all_routes
             | routes =>
                 dict_set (jf_key f)
                   (default [] (dict_get (jf_key f) all_routes) ++ routes) all_routes
             end)
          (process_js_files files) files'.
Proof.
  induction files' as [|f files' IH] using rev_ind.
  - by rewrite app_nil_r.
  - by rewrite app_assoc, process_js_files_snoc, foldl_snoc, IH.
Qed.

Lemma process_js_files_keys files :
  forall k, k ∈ (process_js_files files).*1 -> k ∈ jf_key <$> files.
Proof.
  induction files as [|f files IH] using rev_ind; [done|].
  intros k. rewrite process_js_files_snoc, fmap_app, elem_of_app.
  destruct (routes_of_file f) as [|r routes]; [by left; apply IH|].
  rewrite elem_of_keys_iff, dict_get_set.
  destruct (String.eqb_spec k (jf_key f)) as [->|Hk].
  - intros _. right. apply list_elem_of_here.
  - rewrite <- elem_of_keys_iff. by left; apply IH.
Qed.

(** X11: a file that cannot be read, or from which nothing is extracted,
    leaves no trace in the result; every list stored is non-empty; and
    for files of distinct keys the candidates handed to the canonicaliser
    are the extracted routes of the files, file after file. *)
Theorem process_js_files_keeps_what_was_extracted :
  (forall files f files',
      routes_of_file f = [] ->
      process_js_files (files ++ f :: files') = process_js_files (files ++ files'))
  /\ (forall f e, jf_content f = Raise e -> routes_of_file f = [])
  /\ (forall files, Forall (fun kv => kv.2 <> []) (process_js_files files))
  /\ (forall files,
        NoDup (jf_key <$> files) ->
        candidates (process_js_files files) = concat (routes_of_file <$> files)).
Proof.
  split; [|split; [|split]].
  - intros files f files' Hf.
    rewrite (process_js_files_app files (f :: files')), process_js_files_app.
    cbn [foldl]. by rewrite Hf.
  - intros f e Hf. unfold routes_of_file. by rewrite Hf.
  - intros files. induction files as [|f files IH] using rev_ind; [constructor|].
    rewrite process_js_files_snoc.
    destruct (routes_of_file f) as [|r routes]; [done|].
    apply dict_set_Forall; [done|]. intros k _. simpl.
    by destruct (default [] _).
  - intros files. induction files as [|f files IH] using rev_ind; intros Hnd; [done|].
    rewrite fmap_app in Hnd. apply NoDup_app in Hnd as (Hnd & Hf & _).
    rewrite process_js_files_snoc, fmap_app, concat_app. simpl.
    rewrite app_nil_r, <- IH by done.
    destruct (routes_of_file f) as [|r routes]; [by rewrite app_nil_r|].
    assert (dict_get (jf_key f) (process_js_files files) = None) as Hfresh.
    { apply dict_get_None. intros Hin%process_js_files_keys.
      apply (Hf _ Hin). apply list_elem_of_here. }
    rewrite Hfresh, dict_set_fresh by done. simpl.
    unfold candidates, dict_values. rewrite map_app, concat_app. simpl.
    by rewrite app_nil_r.
Qed.

Lemma process_js_files_keeps_what_was_extracted_witness :
  let files := [JsFile "a.js" "site/a.js" (Ok "x = '/login'");
                JsFile "b.js" "site/b.js" (Raise (PyExn "OSError" "denied"));
                JsFile "c.js" "site/c.js" (Ok "y = '/logout'")] in
  candidates (process_js_files files) = concat (routes_of_file <$> files).
Proof.
  cbn zeta.
  apply (proj2 (proj2 (proj2 process_js_files_keeps_what_was_extracted))).
  apply (bool_decide_unpack _). vm_compute. exact I.
Defined.

(** ** Reading the sources of a record back *)

Lemma prefix_comma c t : String.prefix "," (String c t) = Str.chr_eqb c ",".
Proof.
  unfold Str.chr_eqb. cbn [String.prefix].
  destruct (ascii_dec "," c) as [<-|Hc]; [by destruct t|].
  symmetry. apply Ascii.eqb_neq. congruence.
Qed.

Lemma split_comma_cons c t :
  Str.split_go "," 0 (String c t)
  = if String.prefix "," (String c t)
    then EmptyString :: Str.split_go "," 0 t
    else match Str.split_go "," 0 t with
         | x :: l => String c x :: l
         | [] => [String c EmptyString]
         end.
Proof. reflexivity. Qed.

Lemma comma_free_cons c t :
  comma_free (String c t) -> Str.chr_eqb c "," = false /\ comma_free t.
Proof.
  unfold comma_free, Str.split. rewrite split_comma_cons, prefix_comma.
  destruct (Str.chr_eqb c ","); [done|]. intros Ht. split; [done|].
  destruct (Str.split_go "," 0 t) as [|x l] eqn:Hs.
  - injection Ht as <-. discriminate Hs.
  - by injection Ht as -> ->.
Qed.

Lemma comma_free_sep_free s : comma_free s -> sep_free s.
Proof.
  induction s as [|c t IH]; [done|].
  intros [Hc Ht%IH]%comma_free_cons. unfold sep_free, Str.split in *.
  by rewrite split_go_cons, prefix_sep, Hc, Ht.
Qed.

Lemma split_comma_app a rest :
  comma_free a -> Str.split "," (a +:+ "," +:+ rest) = a :: Str.split "," rest.
Proof.
  induction a as [|c a IH].
  - intros _. rewrite append_nil. change ("," +:+ rest) with (String "," rest).
    unfold Str.split. by rewrite split_comma_cons, prefix_comma.
  - intros [Hc Ha]%comma_free_cons. unfold Str.split in *.
    rewrite append_cons, split_comma_cons, prefix_comma, Hc.
    by rewrite IH.
Qed.

Lemma comma_free_space s : comma_free s -> comma_free (String " " s).
Proof.
  unfold comma_free, Str.split. intros Hs.
  by rewrite split_comma_cons, prefix_comma, Hs.
Qed.

Lemma join_space sep y t :
  String " " (Str.join sep (y :: t)) = Str.join sep (String " " y :: t).
Proof. by destruct t. Qed.

Lemma split_comma_join x l :
  comma_free x -> Forall comma_free l ->
  Str.split "," (Str.join ", " (x :: l)) = x :: (String " " <$> l).
Proof.
  intros Hx Hl. revert x Hx. induction Hl as [|y l Hy Hl IH]; intros x Hx; [done|].
  change (Str.join ", " (x :: y :: l))
    with (x +:+ "," +:+ String " " (Str.join ", " (y :: l))).
  rewrite split_comma_app, join_space, IH by auto using comma_free_space.
  done.
Qed.

Lemma strip_space s : strip (String " " s) = strip s.
Proof. reflexivity. Qed.

Lemma source_files_of_join l :
  l <> [] -> Forall (fun s => comma_free s /\ stripped s) l ->
  source_files_of (Str.join ", " l) = l.
Proof.
  intros Hne Hall. destruct l as [|x l]; [done|].
  apply Forall_cons in Hall as [[Hx Hsx] Hl].
  unfold source_files_of.
  rewrite split_comma_join; [|done|by eapply Forall_impl; [exact Hl|intros ? []]].
  rewrite fmap_cons, Hsx. f_equal. clear Hne.
  induction Hl as [|y l [_ Hy] Hl IH]; [done|].
  rewrite !fmap_cons, IH, strip_space. by f_equal.
Qed.

(** X12: what [save_routes_to_file] writes as [source_file],
    [read_route_source] reads back: splitting it at the commas and
    stripping the pieces gives the sources of the record, sorted, none
    lost and none twice, provided no source name holds a comma or starts
    or ends with white space. *)
Theorem read_route_source_recovers_sources (routes : dict (list route_rec))
    (e : route_rec) :
  Forall (fun r => comma_free (rt_source_file r) /\ stripped (rt_source_file r))
         (candidates routes) ->
  e ∈ save_routes_to_file routes ->
  source_files_of (rt_source_file e)
  = sorted_strings (sources_of (rt_path e) (candidates routes)).
Proof.
  intros Hall He.
  assert (Hrec := save_routes_record _ _ He).
  rewrite (record_at_sources _ _ _
             ltac:(eapply Forall_impl; [exact Hall|];
                   intros ? [? _]; by apply comma_free_sep_free) Hrec).
  apply source_files_of_join.
  - destruct (proj1 (record_at_Some_iff (rt_path e) (candidates routes)))
      as (r & Hin & Hp); [by eauto|].
    apply (sorted_strings_nonempty _ (rt_source_file r)).
    apply elem_of_sources_of. eauto.
  - apply Forall_forall. intros s Hs%elem_of_sorted_strings.
    apply elem_of_sources_of in Hs as (r & Hin & _ & <-).
    by apply (proj1 (Forall_forall _ _) Hall).
Qed.

Lemma read_route_source_recovers_sources_witness :
  source_files_of "a.js, sub/b.js"
  = sorted_strings
      (sources_of "/x"
         (candidates [("b.js", [Route VueRoute None "/x/" "sub/b.js"]);
                      ("a.js", [Route VueRoute None "/x" "a.js"])])).
Proof.
  apply (read_route_source_recovers_sources
           [("b.js", [Route VueRoute None "/x/" "sub/b.js"]);
            ("a.js", [Route VueRoute None "/x" "a.js"])]
           (Route VueRoute None "/x" "a.js, sub/b.js")).
  - repeat constructor.
  - vm_compute. constructor.
Defined.

(** ** Looking a path up in the inventory *)

Lemma filter_eq_NoDup_length {A} `{EqDecision A} (a : A) (l : list A) :
  NoDup l -> (length (filter (fun x => x = a) l) <= 1)%nat.
Proof.
  induction 1 as [|x l Hx Hl IH]; [simpl; lia|].
  rewrite filter_cons. destruct (decide (x = a)) as [->|]; [|done].
  assert (filter (fun x => x = a) l = []) as ->; [|done].
  destruct (filter _ l) as [|y l'] eqn:Hf; [done|].
  assert (y ∈ filter (fun x => x = a) l) as [-> Hin]%list_elem_of_filter
    by (rewrite Hf; apply list_elem_of_here).
  done.
Qed.

Lemma loaded_NoDup routes : NoDup (loaded (save_routes_to_file routes)).
Proof.
  unfold loaded. rewrite list_fmap_compose.
  apply NoDup_fmap_2; [by intros ?? [=]|]. apply save_routes_NoDup.
Qed.

Lemma elem_of_loaded routes p :
  Some p ∈ loaded (save_routes_to_file routes)
  <-> exists r, r ∈ candidates routes /\ normalize_path (rt_path r) = p.
Proof.
  unfold loaded. rewrite list_fmap_compose, list_elem_of_fmap.
  rewrite <- record_at_Some_iff. unfold record_at.
  rewrite <- elem_of_keys_iff, <- save_routes_paths. split.
  - by intros (p' & [= ->] & Hin).
  - intros Hin. by exists p.
Qed.

(** X13: in a routes file that [save_routes_to_file] wrote, the lookup
    of [read_route_source] finds at most one record; it finds one exactly
    for the normalised path of some candidate, and none for a path that
    is not in normal form. *)
Theorem lookup_finds_at_most_one_record (routes : dict (list route_rec))
    (route_path : string) :
  (length (matching_routes (loaded (save_routes_to_file routes)) route_path) <= 1)%nat
  /\ (matching_routes (loaded (save_routes_to_file routes)) route_path <> []
      <-> exists r, r ∈ candidates routes /\ normalize_path (rt_path r) = route_path)
  /\ (normalize_path route_path <> route_path ->
      matching_routes (loaded (save_routes_to_file routes)) route_path = []).
Proof.
  unfold matching_routes.
  assert (Hne : forall l : routes_data_t,
             filter (fun route => route = Some route_path) l <> []
             <-> Some route_path ∈ l).
  { intros l. split.
    - destruct (filter _ l) as [|x l'] eqn:Hf; [done|]. intros _.
      assert (x ∈ filter (fun route => route = Some route_path) l)
        as [-> ?]%list_elem_of_filter by (rewrite Hf; apply list_elem_of_here).
      done.
    - intros Hin Hf.
      assert (Some route_path ∈ filter (fun route => route = Some route_path) l) as Hx
        by by apply list_elem_of_filter.
      rewrite Hf in Hx. by apply elem_of_nil in Hx. }
  split; [apply filter_eq_NoDup_length, loaded_NoDup|].
  split; [by rewrite Hne, elem_of_loaded|].
  intros Hp. destruct (filter _ _) as [|x l'] eqn:Hf; [done|]. exfalso.
  assert (Some route_path ∈ loaded (save_routes_to_file routes)) as Hin
    by (apply Hne; by rewrite Hf).
  apply elem_of_loaded in Hin as (r & _ & <-). apply Hp, normalize_path_fixed.
Qed.

(** ** One probe per record *)

Lemma elem_of_all_paths_of data p : p ∈ all_paths_of data <-> Some p ∈ data.
Proof.
  unfold all_paths_of. induction data as [|route data IH] using rev_ind.
  - split; [by intros ?%elem_of_empty|by intros ?%elem_of_nil].
  - rewrite foldl_snoc, elem_of_app, list_elem_of_singleton.
    destruct route as [path|].
    + rewrite elem_of_union, elem_of_singleton, IH. split.
      * intros [?| ->]; [by left|by right].
      * intros [?|[= ->]]; [by left|by right].
    + rewrite IH. split; [by left|]. by intros [?|[=]].
Qed.

Lemma probe_all_urls urljoin requests_get int base_url all_paths results :
  probe_all urljoin requests_get int base_url all_paths = Ok results ->
  Forall2 (fun path result =>
             urljoin (Str.rstrip "/" base_url +:+ "/") (Str.lstrip "/" path)
             = Ok (pr_url result))
          all_paths results.
Proof.
  revert results. induction all_paths as [|path rest IH]; intros results;
    cbn [probe_all].
  - intros [= <-]. constructor.
  - destruct (test_route urljoin requests_get int base_url path)
      as [result|] eqn:Hres; cbn [bind]; [|done].
    destruct (probe_all urljoin requests_get int base_url rest)
      as [rs|] eqn:Hrest; cbn [bind]; [|done].
    intros [= <-]. constructor; [|by apply IH].
    destruct (urljoin (Str.rstrip "/" base_url +:+ "/") (Str.lstrip "/" path))
      as [url|e] eqn:Hjoin.
    + destruct (test_route_joined _ requests_get int _ _ _ Hjoin)
        as (result' & Hres' & Hurl & _). congruence.
    + unfold test_route in Hres. by rewrite Hjoin in Hres.
Qed.

(** X14: the paths that [main] probes, taken from a routes file that
    [save_routes_to_file] wrote, are the paths of the records, each once;
    so, when the URL of every record joins, the run gives one result per
    record, and the URL of each result is the join for its path. *)
Theorem one_probe_per_record (routes : dict (list route_rec)) :
  size (all_paths_of (loaded (save_routes_to_file routes)))
  = length (save_routes_to_file routes)
  /\ elements (all_paths_of (loaded (save_routes_to_file routes)))
     ≡ₚ rt_path <$> save_routes_to_file routes
  /\ forall urljoin requests_get int base_url,
       Forall (fun e =>
                 exists url,
                   urljoin (Str.rstrip "/" base_url +:+ "/")
                           (Str.lstrip "/" (rt_path e)) = Ok url)
              (save_routes_to_file routes) ->
       exists results,
         probe_all urljoin requests_get int base_url
           (elements (all_paths_of (loaded (save_routes_to_file routes))))
         = Ok results
         /\ length results = length (save_routes_to_file routes)
         /\ Forall2 (fun path result =>
                       urljoin (Str.rstrip "/" base_url +:+ "/") (Str.lstrip "/" path)
                       = Ok (pr_url result))
                    (elements (all_paths_of (loaded (save_routes_to_file routes))))
                    results.
Proof.
  assert (Hset : all_paths_of (loaded (save_routes_to_file routes))
                 = list_to_set (rt_path <$> save_routes_to_file routes)).
  { apply set_eq. intros p.
    rewrite elem_of_all_paths_of, elem_of_list_to_set. unfold loaded.
    by rewrite list_fmap_compose, (list_elem_of_fmap_inj Some). }
  assert (Hsize : size (all_paths_of (loaded (save_routes_to_file routes)))
                  = length (save_routes_to_file routes)).
  { rewrite Hset, size_list_to_set, length_fmap; [done|]. apply save_routes_NoDup. }
  assert (Hperm : elements (all_paths_of (loaded (save_routes_to_file routes)))
                  ≡ₚ rt_path <$> save_routes_to_file routes).
  { rewrite Hset. apply elements_list_to_set, save_routes_NoDup. }
  split; [done|]. split; [done|].
  intros urljoin requests_get int base_url Hjoin.
  destruct (probe_all_joined urljoin requests_get int base_url
              (elements (all_paths_of (loaded (save_routes_to_file routes)))))
    as (results & Hrun & Hlen).
  { rewrite Hperm. by apply Forall_fmap. }
  exists results. split; [done|]. split; [by rewrite Hlen, <- Hsize|].
  by apply (probe_all_urls urljoin requests_get int).
Qed.

(** ** The lines shown around a match *)

Lemma elem_of_py_range i a b : i ∈ py_range a b <-> (a <= i < b)%Z.
Proof.
  unfold py_range. rewrite list_elem_of_fmap. split.
  - intros (n & -> & Hn%elem_of_seq). lia.
  - intros Hi. exists (Z.to_nat (i - a)). split; [lia|].
    apply elem_of_seq. lia.
Qed.

(** X15: the lines [read_route_source] shows around a match are lines
    of the file, whatever the numbers: no index is negative or past the
    end. For a match on a line of the file and a context that is not
    negative, the line of the match is among them and at most
    [2 * context_lines + 1] lines are shown; a negative context shows
    nothing. *)
Theorem shown_lines_are_lines_of_the_file (line_number context_lines total_lines : Z) :
  Forall (fun i => (0 <= i < total_lines)%Z)
         (shown_lines line_number context_lines total_lines)
  /\ ((1 <= line_number <= total_lines)%Z -> (0 <= context_lines)%Z ->
      (line_number - 1)%Z ∈ shown_lines line_number context_lines total_lines)
  /\ ((0 <= context_lines)%Z ->
      (length (shown_lines line_number context_lines total_lines)
       <= Z.to_nat (2 * context_lines + 1))%nat)
  /\ ((context_lines < 0)%Z ->
      shown_lines line_number context_lines total_lines = []).
Proof.
  unfold shown_lines, start_line, end_line. split; [|split; [|split]].
  - apply Forall_forall. intros i Hi%elem_of_py_range. lia.
  - intros Hl Hc. apply elem_of_py_range. lia.
  - intros Hc. unfold py_range. rewrite length_fmap, length_seq. lia.
  - intros Hc. unfold py_range.
    replace (Z.to_nat _) with 0%nat by lia. done.
Qed.


(** ** What the filter accepts and what it rejects *)

Lemma m_rep_fails {R} greedy p lo hi s cs (k : string -> caps -> option R)
    (Q : string -> Prop) :
  (forall c t, Q (String c t) -> Q t) ->
  (forall u, Q u -> k u cs = None) ->
  Q s -> m_rep greedy p lo hi s cs k = None.
Proof.
  intros Htail Hk. revert lo hi. induction s as [|c t IH]; intros lo hi Hs; cbn [m_rep].
  - destruct (lo =? 0)%nat; [by apply Hk|done].
  - assert (Hstop : (if (lo =? 0)%nat then k (String c t) cs else None) = None)
      by (destruct (lo =? 0)%nat; [by apply Hk|done]).
    destruct (p c && room hi); [|done].
    destruct greedy; unfold orelse; rewrite IH by eauto; by rewrite Hstop.
Qed.

Lemma dot_free_tail c t : dot_free (String c t) -> dot_free t.
Proof. unfold dot_free. cbn [Str.chr_in]. by intros [_ ?]%orb_false_iff. Qed.

Lemma match_here_file_name_dot_free s : dot_free s -> match_here file_name_re s = None.
Proof.
  intros Hs. unfold match_here, file_name_re. cbn [m].
  destruct (strip_prefix "/" s) as [t|] eqn:Hstrip; [|done].
  assert (dot_free t) as Ht.
  { destruct s as [|c s']; [done|]. cbn [strip_prefix] in Hstrip.
    destruct (Str.chr_eqb "/" c); [|done]. injection Hstrip as <-.
    by eapply dot_free_tail. }
  unfold plus. cbn [m]. apply (m_rep_fails _ _ _ _ _ _ _ dot_free); [|..|done].
  - apply dot_free_tail.
  - intros u Hu. destruct u as [|d u']; [done|]. cbn [strip_prefix].
    unfold dot_free in Hu. cbn [Str.chr_in] in Hu.
    apply orb_false_iff in Hu as [-> _]. done.
Qed.

Lemma search_file_name_dot_free s : dot_free s -> search file_name_re s = false.
Proof.
  induction s as [|c t IH]; intros Hs; cbn [search];
    rewrite match_here_file_name_dot_free by done; [done|].
  apply IH. by eapply dot_free_tail.
Qed.

Lemma lower_chr_dot c : Str.chr_eqb "." (Str.lower_chr c) = Str.chr_eqb "." c.
Proof. by destruct c as [[] [] [] [] [] [] [] []]. Qed.

Lemma chr_in_dot_lower s : Str.chr_in "." (Str.lower s) = Str.chr_in "." s.
Proof.
  induction s as [|c t IH]; [done|].
  cbn [Str.lower Str.chr_in]. by rewrite lower_chr_dot, IH.
Qed.

Lemma endswith_has_dot t e : Str.endswith t (String "." e) = true -> Str.chr_in "." t = true.
Proof.
  induction t as [|c t IH]; cbn [Str.endswith]; [done|].
  intros [Heq|Hrec]%orb_true_iff.
  - apply String.eqb_eq in Heq. by injection Heq as -> _.
  - cbn [Str.chr_in]. rewrite IH by done. by rewrite orb_true_r.
Qed.

(** X16: a path without a dot passes the filter as soon as it holds a
    character that is neither a separator nor a backslash: it cannot end
    in an asset extension or in a file name. So a route such as
    [/api/users/:id] is never dropped. *)
Theorem dot_free_paths_are_accepted (s : string) :
  dot_free s ->
  Str.all (fun c => Str.chr_in c "./\") s = false ->
  is_valid_route (PyStr s) = Ok true.
Proof.
  intros Hdot Hall. unfold is_valid_route.
  assert (in_strings (PyStr s) invalid_paths = false) as ->.
  { apply not_true_is_false. cbn [in_strings].
    intros (p & Hin & ->%String.eqb_eq)%existsb_exists.
    cbn in Hin. destruct Hin as [<-|[<-|[<-|[<-|[]]]]]; discriminate Hall. }
  cbn [iter bind]. rewrite Hall.
  assert (existsb (fun ext => Str.endswith (Str.lower s) ext) static_extensions = false)
    as ->.
  { apply not_true_is_false. intros (ext & Hin & Hend)%existsb_exists.
    assert (exists e, ext = String "." e) as [e ->].
    { cbn in Hin. repeat (destruct Hin as [<-|Hin]; [by eexists|]). done. }
    apply endswith_has_dot in Hend. rewrite chr_in_dot_lower in Hend.
    unfold dot_free in Hdot. congruence. }
  by rewrite search_file_name_dot_free.
Qed.

Lemma dot_free_paths_are_accepted_witness : is_valid_route (PyStr "/api/users/:id") = Ok true.
Proof. apply dot_free_paths_are_accepted; reflexivity. Defined.

Lemma lower_app a b : Str.lower (a +:+ b) = Str.lower a +:+ Str.lower b.
Proof.
  induction a as [|c a IH]; [done|].
  rewrite append_cons. cbn [Str.lower]. by rewrite IH, append_cons.
Qed.

Lemma endswith_app a b : Str.endswith (a +:+ b) b = true.
Proof.
  induction a as [|c a IH].
  - rewrite append_nil. destruct b; cbn [Str.endswith]; by rewrite String.eqb_refl.
  - rewrite append_cons. cbn [Str.endswith]. by rewrite IH, orb_true_r.
Qed.

(** X17: a path that ends in one of the listed asset extensions, in any
    mix of upper and lower case, is rejected, whatever stands in front. *)
Theorem asset_paths_are_rejected (s e : string) :
  Str.lower e ∈ static_extensions ->
  is_valid_route (PyStr (s +:+ e)) = Ok false.
Proof.
  intros He. unfold is_valid_route.
  destruct (in_strings _ _); [done|]. cbn [iter bind].
  destruct (Str.all _ _); [done|].
  assert (existsb (fun ext => Str.endswith (Str.lower (s +:+ e)) ext) static_extensions
          = true) as ->; [|done].
  apply existsb_exists. exists (Str.lower e). split; [by apply list_elem_of_In|].
  rewrite lower_app. apply endswith_app.
Qed.

Lemma asset_paths_are_rejected_witness :
  is_valid_route (PyStr ("/app/Logo" +:+ ".PNG")) = Ok false.
Proof.
  apply asset_paths_are_rejected.
  apply list_elem_of_In. vm_compute. tauto.
Defined.


(** ** From the files to the inventory *)

Lemma elem_of_candidates_extend (d : dict (list route_rec)) k new r :
  r ∈ candidates (dict_set k (default [] (dict_get k d) ++ new) d)
  <-> r ∈ candidates d \/ r ∈ new.
Proof.
  unfold candidates, dict_values.
  induction d as [|[k0 v0] d IH]; cbn [dict_get dict_set].
  - simpl. rewrite app_nil_r. split; [by right|]. by intros [?%elem_of_nil|?].
  - destruct (String.eqb_spec k k0) as [->|Hk]; simpl.
    + rewrite !elem_of_app. tauto.
    + rewrite !elem_of_app, IH. tauto.
Qed.

Lemma elem_of_candidates_process files r :
  r ∈ candidates (process_js_files files)
  <-> exists f, f ∈ files /\ r ∈ routes_of_file f.
Proof.
  induction files as [|f files IH] using rev_ind.
  - split; [by intros ?%elem_of_nil|]. by intros (f & ?%elem_of_nil & _).
  - rewrite process_js_files_snoc.
    assert (r ∈ candidates (process_js_files files) \/ r ∈ routes_of_file f
            <-> exists f', f' ∈ files ++ [f] /\ r ∈ routes_of_file f') as Hsplit.
    { rewrite IH. split.
      - intros [(f' & Hin & Hr)|Hr].
        + exists f'. split; [|done]. apply elem_of_app. by left.
        + exists f. split; [|done]. apply elem_of_app. right. apply list_elem_of_here.
      - intros (f' & [Hin|Hin%list_elem_of_singleton]%elem_of_app & Hr);
          [left; by eauto|right; by subst]. }
    rewrite <- Hsplit. destruct (routes_of_file f) as [|r0 routes] eqn:Hf.
    + split; [by left|]. by intros [?|?%elem_of_nil].
    + apply elem_of_candidates_extend.
Qed.

Lemma routes_of_file_valid f r :
  r ∈ routes_of_file f -> is_valid_route (PyStr (rt_path r)) = Ok true.
Proof.
  unfold routes_of_file. destruct (jf_content f) as [content|]; cbn [bind];
    [|by intros ?%elem_of_nil].
  destruct (extract_routes_from_js _ _) as [routes|] eqn:Hrun;
    [|by intros ?%elem_of_nil].
  intros Hin. apply extract_routes_valid in Hrun.
  by apply (proj1 (Forall_forall _ _) Hrun r Hin).
Qed.

(** X18: from a directory to the inventory: every record written out is
    the normal form of a path that the filter accepted in some file that
    could be read, and the normal form of every such path is the path of
    a record. *)
Theorem inventory_is_the_accepted_candidates (files : list js_file) :
  (forall e,
      e ∈ save_routes_to_file (process_js_files files) ->
      exists f r, f ∈ files /\ r ∈ routes_of_file f
                  /\ normalize_path (rt_path r) = rt_path e
                  /\ is_valid_route (PyStr (rt_path r)) = Ok true)
  /\ (forall f r,
        f ∈ files -> r ∈ routes_of_file f ->
        normalize_path (rt_path r)
        ∈ rt_path <$> save_routes_to_file (process_js_files files)).
Proof.
  split.
  - intros e He.
    assert (rt_path e ∈ rt_path <$> save_routes_to_file (process_js_files files))
      as Hin by by apply list_elem_of_fmap_2.
    rewrite save_routes_paths, elem_of_keys_iff in Hin.
    apply record_at_Some_iff in Hin as (r & Hr & Hp).
    apply elem_of_candidates_process in Hr as (f & Hf & Hr).
    exists f, r. split; [done|]. split; [done|]. split; [done|].
    by eapply routes_of_file_valid.
  - intros f r Hf Hr. rewrite save_routes_paths, elem_of_keys_iff.
    apply record_at_Some_iff. exists r. split; [|done].
    apply elem_of_candidates_process. eauto.
Qed.

Lemma one_probe_per_record_witness :
  exists results,
    probe_all urljoin_sample requests_get_refused int_sample "https://x.test"
      (elements (all_paths_of (loaded (save_routes_to_file
         [("a.js", [Route VueRoute None "/login" "a.js";
                    Route VueRoute None "/login/" "a.js";
                    Route VueRoute None "/logout" "a.js"])]))))
    = Ok results
    /\ length results
       = length (save_routes_to_file
                   [("a.js", [Route VueRoute None "/login" "a.js";
                              Route VueRoute None "/login/" "a.js";
                              Route VueRoute None "/logout" "a.js"])])
    /\ Forall2 (fun path result =>
                  urljoin_sample (Str.rstrip "/" "https://x.test" +:+ "/")
                                 (Str.lstrip "/" path)
                  = Ok (pr_url result))
               (elements (all_paths_of (loaded (save_routes_to_file
                  [("a.js", [Route VueRoute None "/login" "a.js";
                             Route VueRoute None "/login/" "a.js";
                             Route VueRoute None "/logout" "a.js"])]))))
               results.
Proof.
  apply (proj2 (proj2 (one_probe_per_record _)) urljoin_sample requests_get_refused
           int_sample "https://x.test").
  apply Forall_forall. intros e _. eexists. reflexivity.
Defined.


(** ** What a match consumes *)

Lemma strip_prefix_Some l s t : strip_prefix l s = Some t -> s = l +:+ t.
Proof.
  revert s. induction l as [|c l IH]; intros s; cbn [strip_prefix].
  - by intros [= ->].
  - destruct s as [|d s]; [done|]. unfold Str.chr_eqb.
    destruct (Ascii.eqb_spec c d) as [->|]; [|done].
    intros ->%IH. by rewrite append_cons.
Qed.

Lemma length_append a b : String.length (a +:+ b) = (String.length a + String.length b)%nat.
Proof. induction a as [|c a IH]; [done|]. rewrite append_cons. simpl. by rewrite IH. Qed.

Lemma consumed_append w t : consumed (w +:+ t) t = w.
Proof.
  unfold consumed. rewrite length_append.
  replace (String.length w + String.length t - String.length t)%nat
    with (String.length w) by lia.
  induction w as [|c w IH]; [by destruct t|].
  rewrite append_cons. cbn [String.length String.substring]. by rewrite IH.
Qed.

Lemma m_rep_sound {R} greedy p lo hi s cs (k : string -> caps -> option R) res :
  m_rep greedy p lo hi s cs k = Some res ->
  exists w t, s = w +:+ t /\ matches (Rep greedy lo hi p) w /\ k t cs = Some res.
Proof.
  assert (Hstop : forall lo hi s,
             (if (lo =? 0)%nat then k s cs else None) = Some res ->
             exists w t, s = w +:+ t /\ matches (Rep greedy lo hi p) w
                         /\ k t cs = Some res).
  { intros lo' hi' s'. destruct (Nat.eqb_spec lo' 0) as [->|]; [|done].
    intros Hk. exists EmptyString, s'. split; [done|]. split; [|done].
    constructor; [done|simpl; lia|]. intros h _. simpl. lia. }
  revert lo hi. induction s as [|c t IH]; intros lo hi; cbn [m_rep]; [by apply Hstop|].
  destruct (p c && room hi) eqn:Hpc; [|by apply Hstop].
  apply andb_true_iff in Hpc as [Hp Hroom].
  assert (Hmore : m_rep greedy p (pred lo) (pred <$> hi) t cs k = Some res ->
                  exists w t', String c t = w +:+ t'
                               /\ matches (Rep greedy lo hi p) w /\ k t' cs = Some res).
  { intros (w & t' & -> & Hw & Hk)%IH. exists (String c w), t'.
    split; [by rewrite append_cons|]. split; [|done].
    inversion Hw as [| |? ? ? ? ? Hall Hlo Hhi| | | | | |]; subst.
    constructor; [cbn [Str.all]; by rewrite Hp|simpl; lia|].
    intros h ->. destruct h as [|h]; [done|].
    specialize (Hhi h eq_refl). simpl. lia. }
  destruct greedy; unfold orelse.
  - destruct (m_rep true p (pred lo) (pred <$> hi) t cs k) eqn:Hm.
    + intros [= <-]. by apply Hmore.
    + by apply Hstop.
  - destruct (if (lo =? 0)%nat then k (String c t) cs else None) eqn:Hs.
    + intros [= <-]. by apply Hstop.
    + exact Hmore.
Qed.

(** A pattern without groups: the continuation gets the captures as they
    were, and the text in front of what it gets is matched. *)
Lemma m_sound {R} r s cs (k : string -> caps -> option R) res :
  ngroups r = 0%nat ->
  m r s cs k = Some res ->
  exists w t, s = w +:+ t /\ matches r w /\ k t cs = Some res.
Proof.
  revert s cs k res.
  induction r as [l|p|greedy lo hi p|r1 IH1 r2 IH2|r1 IH1 r2 IH2|i r1 IH1| |];
    intros s cs k res Hg; cbn [m].
  - destruct (strip_prefix l s) as [t|] eqn:Hl; [|done].
    apply strip_prefix_Some in Hl as ->. intros Hk.
    exists l, t. split; [done|]. split; [constructor|done].
  - destruct s as [|c t]; [done|]. destruct (p c) eqn:Hp; [|done]. intros Hk.
    exists (String c EmptyString), t. split; [done|]. split; [by constructor|done].
  - apply m_rep_sound.
  - cbn [ngroups] in Hg.
    intros (w1 & t1 & -> & H1 & H2)%IH1; [|lia].
    apply IH2 in H2 as (w2 & t2 & -> & H2 & Hk); [|lia].
    exists (w1 +:+ w2), t2. split.
    { clear. induction w1 as [|c w1 IH]; [done|]. by rewrite !append_cons, IH. }
    split; [by constructor|done].
  - cbn [ngroups] in Hg. unfold orelse. destruct (m r1 s cs k) eqn:H1.
    + intros [= <-]. apply IH1 in H1 as (w & t & -> & Hw & Hk); [|lia].
      exists w, t. split; [done|]. split; [by apply matches_Alt_l|done].
    + intros (w & t & -> & Hw & Hk)%IH2; [|lia].
      exists w, t. split; [done|]. split; [by apply matches_Alt_r|done].
  - done.
  - destruct (at_eol s); [|done]. intros Hk.
    exists EmptyString, s. split; [done|]. split; [constructor|done].
  - intros Hk. exists EmptyString, s. split; [done|]. split; [constructor|done].
Qed.

(** A pattern with one group, the first, and nothing captured around it:
    the captures of a match are the text the group matched. *)
Lemma one_group_match pre body post s t cs :
  ngroups pre = 0%nat -> ngroups body = 0%nat -> ngroups post = 0%nat ->
  m (pre ⋅ Grp 1 body ⋅ post) s [None] (fun t cs => Some (t, cs)) = Some (t, cs) ->
  exists w, cs = [Some w] /\ matches body w.
Proof.
  intros Hpre Hbody Hpost. cbn [m].
  intros (w0 & t0 & -> & _ & Hb)%m_sound; [|done].
  apply m_sound in Hb as (w & t1 & -> & Hw & Hp); [|done].
  apply m_sound in Hp as (w2 & t2 & -> & _ & [= <- <-]); [|done].
  exists w. split; [|done]. by rewrite consumed_append.
Qed.


(** ** The routes of the generic patterns *)

Lemma all_append p a b : Str.all p (a +:+ b) = Str.all p a && Str.all p b.
Proof.
  induction a as [|c a IH]; [done|].
  rewrite append_cons. cbn [Str.all]. by rewrite IH, andb_assoc.
Qed.

Lemma all_impl (p q : ascii -> bool) s :
  (forall c, p c = true -> q c = true) -> Str.all p s = true -> Str.all q s = true.
Proof.
  intros Hpq. induction s as [|c s IH]; [done|]. cbn [Str.all].
  intros [Hc Hs]%andb_true_iff. by rewrite (Hpq c Hc), IH.
Qed.

Lemma path_chr_not_quote c : path_chr c = true -> not_quote c = true.
Proof. destruct c as [[] [] [] [] [] [] [] []]; vm_compute; congruence. Qed.

Ltac invert_matches :=
  repeat match goal with
         | H : matches (Cat _ _) _ |- _ => inversion H; subst; clear H
         | H : matches (Lit _) _ |- _ => inversion H; subst; clear H
         | H : matches (Rep _ _ _ _) _ |- _ => inversion H; subst; clear H
         end.

Lemma api_path w :
  matches (Lit "/" ⋅ lazy_star not_quote) w ->
  starts_with_slash w = true /\ Str.all not_quote w = true.
Proof. unfold lazy_star. intros Hw. invert_matches. by split. Qed.

Lemma request_path w :
  matches (Alt (Lit "/") (Lit "http" ⋅ Rep true 0 (Some 1) (chr "s") ⋅ Lit "://")
           ⋅ lazy_star not_quote) w ->
  Str.startswith_any w schemes = false ->
  starts_with_slash w = true /\ Str.all not_quote w = true.
Proof.
  unfold lazy_star. intros Hw.
  inversion Hw as [| | |? ? w1 w2 H1 H2| | | | |]; subst; clear Hw.
  inversion H1; subst; clear H1; invert_matches.
  - intros _. by split.
  - match goal with H : forall h, Some 1%nat = Some h -> _ |- _ =>
      specialize (H 1%nat eq_refl); rename H into Hlen end.
    match goal with H : Str.all (chr "s") ?x = true |- _ =>
      rename H into Hs; destruct x as [|c [|d x]] end.
    + intros Hfree. exfalso. revert Hfree. unfold Str.startswith_any, schemes.
      cbn. by destruct w2.
    + cbn [Str.all] in Hs. apply andb_true_iff in Hs as [Hc _].
      unfold chr, Str.chr_eqb in Hc. apply Ascii.eqb_eq in Hc as ->.
      intros Hfree. exfalso. revert Hfree. unfold Str.startswith_any, schemes.
      cbn. by destruct w2.
    + simpl in Hlen. lia.
Qed.

Lemma bare_path w :
  matches (Lit "/" ⋅ lazy_plus path_chr) w ->
  starts_with_slash w = true /\ Str.all not_quote w = true.
Proof.
  unfold lazy_plus. intros Hw. invert_matches. split; [done|].
  rewrite all_append. apply andb_true_iff. split; [done|].
  eapply all_impl; [apply path_chr_not_quote|done].
Qed.

(** The one group of a match of a generic pattern: a path from the
    origin without a quote, or a text that starts with a scheme. *)
Lemma general_pattern_groups r s cs :
  r ∈ general_patterns -> cs ∈ finditer r s ->
  exists w, cs = [Some w]
            /\ (Str.startswith_any w schemes = false ->
                starts_with_slash w = true /\ Str.all not_quote w = true).
Proof.
  intros Hr (s' & t & Hm)%finditer_go_matches. unfold match_here in Hm.
  unfold general_patterns in Hr.
  apply elem_of_cons in Hr as [->|Hr]; [|apply elem_of_cons in Hr as [->|Hr];
    [|apply elem_of_cons in Hr as [->|Hr]; [|by apply elem_of_nil in Hr]]].
  - change (m ((Alt (Lit "url") (Alt (Lit "endpoint") (Lit "api")) ⋅ Lit ":"
                ⋅ star space ⋅ Cls quote)
               ⋅ Grp 1 (Lit "/" ⋅ lazy_star not_quote)
               ⋅ (Cls quote ⋅ star space)) s' [None] (fun t cs => Some (t, cs))
            = Some (t, cs)) in Hm.
    apply one_group_match in Hm as (w & -> & Hw); [|done..].
    exists w. split; [done|]. intros _. by apply api_path.
  - change (m ((Alt (Lit "axios") (Lit "fetch") ⋅ Lit "(" ⋅ Cls quote)
               ⋅ Grp 1 (Alt (Lit "/")
                            (Lit "http" ⋅ Rep true 0 (Some 1) (chr "s") ⋅ Lit "://")
                        ⋅ lazy_star not_quote)
               ⋅ Cls quote) s' [None] (fun t cs => Some (t, cs))
            = Some (t, cs)) in Hm.
    apply one_group_match in Hm as (w & -> & Hw); [|done..].
    exists w. split; [done|]. by apply request_path.
  - apply one_group_match in Hm as (w & -> & Hw); [|done..].
    exists w. split; [done|]. intros _. by apply bare_path.
Qed.

Lemma for_each_invariant_in {A S} (P : S -> Prop) (Q : A -> Prop)
    (f : S -> A -> res S) :
  (forall s a s', Q a -> P s -> f s a = Ok s' -> P s') ->
  forall l s s', Forall Q l -> P s -> for_each f l s = Ok s' -> P s'.
Proof.
  intros Hf l. induction l as [|a l IH]; intros s s' Hl Hs Hrun; simpl in Hrun.
  - by inversion Hrun; subst.
  - apply Forall_cons in Hl as [Ha Hl].
    destruct (f s a) as [s1|e] eqn:Hfa; cbn [bind] in Hrun; [|done].
    eapply IH; [done| |exact Hrun]. eapply Hf; eauto.
Qed.

Lemma on_match_other_kind relative_path route_type routes cs routes' :
  route_type <> GeneralRoute ->
  Forall origin_relative routes ->
  on_match relative_path route_type routes cs = Ok routes' ->
  Forall origin_relative routes'.
Proof.
  intros Hkind Hall. unfold on_match.
  destruct (1 <? length cs)%nat.
  - destruct (group cs 1) as [route_name|]; cbn [bind]; [|done].
    destruct (group cs 2) as [route_path|]; cbn [bind]; [|done].
    destruct (is_valid_route route_path) as [[|]|]; cbn [bind]; [| |done].
    + destruct route_path; intros [= <-]; [done|].
      apply Forall_app; split; [done|]. by repeat constructor.
    + by intros [= <-].
  - destruct (group cs 1) as [[|p]|]; cbn [bind]; [by intros [= <-]| |done].
    destruct (truthy (PyStr p) && _); [|by intros [= <-]].
    destruct (is_valid_route (PyStr p)) as [[|]|]; cbn [bind]; [| |done].
    + intros [= <-]. apply Forall_app; split; [done|]. by repeat constructor.
    + by intros [= <-].
Qed.

Lemma on_match_generic relative_path routes w routes' :
  (Str.startswith_any w schemes = false ->
   starts_with_slash w = true /\ Str.all not_quote w = true) ->
  Forall origin_relative routes ->
  on_match relative_path GeneralRoute routes [Some w] = Ok routes' ->
  Forall origin_relative routes'.
Proof.
  intros Hw Hall. unfold on_match.
  cbn [length Nat.ltb Nat.leb group lookup list_lookup bind].
  destruct (truthy (PyStr w) && negb (Str.startswith_any w schemes)) eqn:Hguard;
    [|by intros [= <-]].
  apply andb_true_iff in Hguard as [_ Hfree%negb_true_iff].
  destruct (is_valid_route (PyStr w)) as [[|]|]; cbn [bind]; [| |done].
  - intros [= <-]. apply Forall_app; split; [done|].
    constructor; [|constructor]. intros _. by apply Hw.
  - by intros [= <-].
Qed.

Lemma extract_routes_origin_relative content relative_path routes :
  extract_routes_from_js content relative_path = Ok routes ->
  Forall origin_relative routes.
Proof.
  unfold extract_routes_from_js.
  destruct (extract_with_patterns _ _ vue_patterns _ _) as [r1|] eqn:H1;
    cbn [bind]; [|done].
  destruct (extract_with_patterns _ _ react_patterns _ _) as [r2|] eqn:H2;
    cbn [bind]; [|done].
  intros H3.
  assert (Hother : forall patterns route_type rs rs',
             route_type <> GeneralRoute ->
             Forall origin_relative rs ->
             extract_with_patterns content relative_path patterns route_type rs
             = Ok rs' ->
             Forall origin_relative rs').
  { intros patterns route_type rs rs' Hkind Hrs. unfold extract_with_patterns.
    apply (for_each_invariant (Forall origin_relative)); [|done].
    intros s pattern s' Hs.
    apply (for_each_invariant (Forall origin_relative)); [|done].
    intros ? ? ?. by apply on_match_other_kind. }
  apply Hother in H1; [|done|constructor]. apply Hother in H2; [|done..].
  revert H3. unfold extract_with_patterns.
  apply (for_each_invariant_in (Forall origin_relative)
           (fun r => r ∈ general_patterns)); [| |done].
  - intros s pattern s' Hpattern Hs.
    apply (for_each_invariant_in (Forall origin_relative)
             (fun cs => cs ∈ finditer pattern content)); [| |done].
    + intros rs cs rs' (w & -> & Hw)%(general_pattern_groups pattern content) Hrs;
        [|done].
      by apply on_match_generic.
    + by apply Forall_forall.
  - by apply Forall_forall.
Qed.

(** X19: a route of the generic kind always has a path that starts with
    a separator and holds no quote. The request pattern also matches
    absolute [http://] and [https://] URLs; the scheme test of the
    one-group branch drops every one of them. *)
Theorem generic_routes_are_origin_relative (content relative_path : string)
    (routes : list route_rec) :
  extract_routes_from_js content relative_path = Ok routes ->
  forall r, r ∈ routes -> rt_type r = GeneralRoute ->
    starts_with_slash (rt_path r) = true /\ Str.all not_quote (rt_path r) = true.
Proof.
  intros Hall%extract_routes_origin_relative r Hr.
  by apply (proj1 (Forall_forall _ _) Hall).
Qed.

Lemma generic_routes_are_origin_relative_witness :
  extract_routes_from_js "fetch('https://a.example/x'); fetch('/api/users')" "a.js"
  = Ok [Route GeneralRoute None "/api/users" "a.js";
        Route GeneralRoute None "/api/users" "a.js"]
  /\ starts_with_slash "/api/users" = true
  /\ Str.all not_quote "/api/users" = true.
Proof.
  split; [vm_compute; reflexivity|].
  apply (generic_routes_are_origin_relative
           "fetch('https://a.example/x'); fetch('/api/users')" "a.js"
           [Route GeneralRoute None "/api/users" "a.js";
            Route GeneralRoute None "/api/users" "a.js"]
           ltac:(vm_compute; reflexivity)
           (Route GeneralRoute None "/api/users" "a.js"));
    [apply list_elem_of_here|reflexivity].
Defined.


(** X20: a route without a name never starts with [http://], [https://],
    [ws://] or [wss://], whatever the text and whichever pattern found
    it. *)
Theorem unnamed_routes_carry_no_scheme (content relative_path : string)
    (routes : list route_rec) :
  extract_routes_from_js content relative_path = Ok routes ->
  forall r, r ∈ routes -> rt_name r = None ->
    Str.startswith_any (rt_path r) schemes = false.
Proof.
  intros Hall%one_group_routes_scheme_free r Hr.
  by apply (proj1 (Forall_forall _ _) Hall).
Qed.

Lemma unnamed_routes_carry_no_scheme_witness :
  Str.startswith_any "/home" schemes = false.
Proof.
  apply (unnamed_routes_carry_no_scheme
           "<Link to='wss://a.example/feed'> <Link to='/home'>" "a.js"
           [Route ReactRoute None "/home" "a.js";
            Route GeneralRoute None "/home" "a.js"]
           ltac:(vm_compute; reflexivity)
           (Route ReactRoute None "/home" "a.js"));
    [apply list_elem_of_here|reflexivity].
Defined.

(** ** The script references of a downloaded text *)

Lemma endswith_append a p : Str.endswith (a +:+ p) p = true.
Proof.
  induction a as [|c a IH].
  - change (Str.endswith p p = true). destruct p as [|c p]; [done|].
    cbn [Str.endswith]. by rewrite String.eqb_refl.
  - rewrite append_cons. cbn [Str.endswith]. rewrite IH. apply orb_true_r.
Qed.

Lemma script_name_matches w :
  matches script_name w ->
  Str.endswith w ".js" = true /\ Str.all not_quote w = true.
Proof.
  unfold script_name, lazy_star. intros Hw. invert_matches.
  split; [apply endswith_append|].
  rewrite all_append. apply andb_true_iff. by split.
Qed.

Lemma append_assoc a b c : (a +:+ b) +:+ c = a +:+ (b +:+ c).
Proof. induction a as [|x a IH]; [done|]. by rewrite !append_cons, IH. Qed.

(** A match that [finditer] reports starts somewhere in the text. *)
Lemma finditer_go_suffix r skip s cs :
  cs ∈ finditer_go r skip s ->
  exists before s' t, s = before +:+ s' /\ match_here r s' = Some (t, cs).
Proof.
  assert (Hlater : forall c s,
             (exists before s' t, s = before +:+ s' /\ match_here r s' = Some (t, cs)) ->
             exists before s' t,
               String c s = before +:+ s' /\ match_here r s' = Some (t, cs)).
  { intros c s0 (before & s' & t & -> & Hm). by exists (String c before), s', t. }
  revert skip. induction s as [|c s IH]; intros skip.
  - destruct skip; cbn [finditer_go]; [|by intros ?%elem_of_nil].
    destruct (match_here r "") as [[t cs0]|] eqn:Hm; [|by intros ?%elem_of_nil].
    intros [->|[]%elem_of_nil]%elem_of_cons. by exists EmptyString, EmptyString, t.
  - destruct skip; cbn [finditer_go]; [|by intros ?%IH; apply Hlater].
    destruct (match_here r (String c s)) as [[t cs0]|] eqn:Hm;
      [|by intros ?%IH; apply Hlater].
    intros [->|Hin]%elem_of_cons; [by exists EmptyString, (String c s), t|].
    by apply Hlater, (IH _ Hin).
Qed.

(** A pattern that ends its opening in a quote, has one group and closes
    with a quote: the group of a match is the text between two quotes of
    the text matched. *)
Lemma quoted_group_match opening body s t cs :
  ngroups opening = 0%nat -> ngroups body = 0%nat ->
  m ((opening ⋅ Cls quote) ⋅ Grp 1 body ⋅ Cls quote) s [None]
    (fun t cs => Some (t, cs)) = Some (t, cs) ->
  exists x q1 w q2,
    s = x +:+ String q1 (w +:+ String q2 t)
    /\ quote q1 = true /\ quote q2 = true /\ matches body w /\ cs = [Some w].
Proof.
  intros Hopening Hbody. cbn [m].
  intros (x & t0 & -> & _ & Hq)%m_sound; [|done].
  destruct t0 as [|q1 t0]; [done|]. destruct (quote q1) eqn:Hq1; [|done].
  apply m_sound in Hq as (w & t1 & -> & Hw & Hp); [|done].
  destruct t1 as [|q2 t1]; [done|]. destruct (quote q2) eqn:Hq2; [|done].
  injection Hp as <- <-. exists x, q1, w, q2.
  by rewrite consumed_append.
Qed.

(** A reference that [findall] reports for one of the patterns stands in
    the text between two quotes, ends in [.js] and holds no quote. *)
Lemma findall_script_names r s w :
  r ∈ patterns -> w ∈ findall r s ->
  (exists before after q1 q2,
      s = before +:+ String q1 (w +:+ String q2 after)
      /\ quote q1 = true /\ quote q2 = true)
  /\ Str.endswith w ".js" = true /\ Str.all not_quote w = true.
Proof.
  intros Hr. unfold findall.
  intros (cs & -> & (before & s' & t & -> & Hm)%finditer_go_suffix)%list_elem_of_fmap.
  unfold match_here in Hm. unfold patterns in Hr.
  assert (exists x q1 w q2,
             s' = x +:+ String q1 (w +:+ String q2 t)
             /\ quote q1 = true /\ quote q2 = true /\ matches script_name w
             /\ cs = [Some w]) as (x & q1 & w & q2 & -> & Hq1 & Hq2 & Hw & ->).
  { apply elem_of_cons in Hr as [->|Hr]; [|apply elem_of_cons in Hr as [->|Hr];
      [|apply elem_of_cons in Hr as [->|Hr]; [|apply elem_of_cons in Hr as [->|Hr];
        [|by apply elem_of_nil in Hr]]]].
    - by apply (quoted_group_match (Alt (Lit "src") (Lit "href") ⋅ Lit "=")) in Hm.
    - by apply (quoted_group_match (Lit "import" ⋅ lazy_star any)) in Hm.
    - by apply (quoted_group_match (Lit "require(")) in Hm.
    - by apply (quoted_group_match (Lit "loadScript(")) in Hm. }
  split; [|by apply script_name_matches].
  exists (before +:+ x), t, q1, q2. by rewrite append_assoc.
Qed.

(** What the loop over the references of one pattern does to the set. *)
Lemma add_urls_spec (urljoin : string -> string -> res string) base_url
    (l : list string) (us us' : gset string) :
  for_each (fun js_urls match_ =>
              let* full_url := urljoin base_url match_ in
              Ok (js_urls ∪ {[full_url]})) l us = Ok us' ->
  (forall u, u ∈ us' <-> u ∈ us \/ exists w, w ∈ l /\ urljoin base_url w = Ok u)
  /\ (forall w, w ∈ l -> exists u, urljoin base_url w = Ok u).
Proof.
  revert us. induction l as [|w l IH]; intros us; cbn [for_each].
  - intros [= <-]. split.
    + intros u. split; [by left|]. by intros [?|(w & ?%elem_of_nil & _)].
    + by intros w ?%elem_of_nil.
  - destruct (urljoin base_url w) as [full_url|e] eqn:Hjoin; cbn [bind]; [|done].
    intros [Hiff Hall]%IH. split.
    + intros u. rewrite Hiff, elem_of_union, elem_of_singleton. split.
      * intros [[Hu| ->]|(w' & Hw' & Hu)]; [by left| |].
        -- right. exists w. split; [apply list_elem_of_here|done].
        -- right. exists w'. split; [by apply list_elem_of_further|done].
      * intros [Hu|(w' & [->|Hw']%elem_of_cons & Hu)].
        -- by left; left.
        -- left; right. congruence.
        -- right. by exists w'.
    + intros w' [->|Hw']%elem_of_cons; [by eexists|by apply Hall].
Qed.

Lemma extract_js_urls_spec (urljoin : string -> string -> res string)
    content base_url (js_urls : gset string) :
  extract_js_urls_from_content urljoin content base_url = Ok js_urls ->
  (forall u, u ∈ js_urls
             <-> exists pattern w, pattern ∈ patterns /\ w ∈ findall pattern content
                                   /\ urljoin base_url w = Ok u)
  /\ (forall pattern w, pattern ∈ patterns -> w ∈ findall pattern content ->
         exists u, urljoin base_url w = Ok u).
Proof.
  unfold extract_js_urls_from_content.
  assert (Hloop : forall (ps : list regex) (us us' : gset string),
             for_each (fun js_urls pattern =>
                         for_each (fun js_urls match_ =>
                                     let* full_url := urljoin base_url match_ in
                                     Ok (js_urls ∪ {[full_url]}))
                                  (findall pattern content) js_urls) ps us = Ok us' ->
             (forall u, u ∈ us'
                        <-> u ∈ us
                            \/ exists pattern w, pattern ∈ ps
                                                  /\ w ∈ findall pattern content
                                                  /\ urljoin base_url w = Ok u)
             /\ (forall pattern w, pattern ∈ ps -> w ∈ findall pattern content ->
                    exists u, urljoin base_url w = Ok u)).
  { induction ps as [|pattern ps IH]; intros us us'; cbn [for_each].
    - intros [= <-]. split.
      + intros u. split; [by left|]. by intros [?|(? & ? & ?%elem_of_nil & _)].
      + by intros ? ? ?%elem_of_nil.
    - destruct (for_each _ (findall pattern content) us) as [us1|e] eqn:Hinner;
        cbn [bind]; [|done].
      apply add_urls_spec in Hinner as [Hiff1 Hall1].
      intros [Hiff Hall]%IH. split.
      + intros u. rewrite Hiff, Hiff1. split.
        * intros [[Hu|(w & Hw & Hu)]|(pattern' & w & Hp & Hw & Hu)]; [by left| |].
          -- right. exists pattern, w. split; [apply list_elem_of_here|done].
          -- right. exists pattern', w. split; [by apply list_elem_of_further|done].
        * intros [Hu|(pattern' & w & [->|Hp]%elem_of_cons & Hw & Hu)].
          -- by left; left.
          -- left; right. by exists w.
          -- right. by exists pattern', w.
      + intros pattern' w [->|Hp]%elem_of_cons Hw; [by apply Hall1|by eapply Hall]. }
  intros [Hiff Hall]%Hloop. split; [|done].
  intros u. rewrite Hiff. split; [|by right].
  by intros [?%elem_of_empty|?].
Qed.

(** X21: the URLs that [extract_js_urls_from_content] returns are the
    joins of the base URL with the references that the four patterns find
    in the text, all of them and nothing else; and such a reference
    stands in the text between two quotes, ends in [.js] and holds no
    quote. *)
Theorem script_urls_join_js_references
    (urljoin : string -> string -> res string) (content base_url : string)
    (js_urls : gset string) :
  extract_js_urls_from_content urljoin content base_url = Ok js_urls ->
  (forall full_url, full_url ∈ js_urls ->
     exists pattern reference before after q1 q2,
       pattern ∈ patterns /\ reference ∈ findall pattern content
       /\ content = before +:+ String q1 (reference +:+ String q2 after)
       /\ quote q1 = true /\ quote q2 = true
       /\ urljoin base_url reference = Ok full_url
       /\ Str.endswith reference ".js" = true
       /\ Str.all not_quote reference = true)
  /\ (forall pattern reference,
        pattern ∈ patterns -> reference ∈ findall pattern content ->
        exists full_url,
          urljoin base_url reference = Ok full_url /\ full_url ∈ js_urls).
Proof.
  intros [Hiff Hall]%extract_js_urls_spec. split.
  - intros full_url (pattern & w & Hp & Hw & Hjoin)%Hiff.
    destruct (findall_script_names pattern content w Hp Hw)
      as ((before & after & q1 & q2 & Htext & Hq1 & Hq2) & Hjs & Hquote).
    by exists pattern, w, before, after, q1, q2.
  - intros pattern w Hp Hw. destruct (Hall pattern w Hp Hw) as [u Hu].
    exists u. split; [done|]. apply Hiff. by exists pattern, w.
Qed.

Lemma script_urls_join_js_references_witness :
  (exists pattern reference before after q1 q2,
      pattern ∈ patterns
      /\ reference ∈ findall pattern "import x from 'js/app.js'; require('js/app.js')"
      /\ "import x from 'js/app.js'; require('js/app.js')"%string
         = before +:+ String q1 (reference +:+ String q2 after)
      /\ quote q1 = true /\ quote q2 = true
      /\ urljoin_sample "https://x.test/" reference = Ok "https://x.test/js/app.js"
      /\ Str.endswith reference ".js" = true
      /\ Str.all not_quote reference = true)
  /\ (exists full_url,
        urljoin_sample "https://x.test/" "js/app.js" = Ok full_url
        /\ full_url ∈ ({["https://x.test/js/app.js"]} : gset string)).
Proof.
  assert (Hrun : extract_js_urls_from_content urljoin_sample
                   "import x from 'js/app.js'; require('js/app.js')" "https://x.test/"
                 = Ok ({["https://x.test/js/app.js"]} : gset string))
    by (vm_compute; reflexivity).
  split.
  - apply (proj1 (script_urls_join_js_references _ _ _ _ Hrun)).
    by apply elem_of_singleton.
  - apply (proj2 (script_urls_join_js_references _ _ _ _ Hrun)
             (Lit "require(" ⋅ Cls quote ⋅ Grp 1 script_name ⋅ Cls quote)).
    + unfold patterns. do 2 apply list_elem_of_further. apply list_elem_of_here.
    + vm_compute. apply list_elem_of_here.
Defined.


(** ** The statements above on sample inputs *)

Lemma non_404_pages_groups_by_status_witness :
  (analyze_results [page "/a" 500; page "/b" 80]).2 !! 200%Z
  = match filter (fun r => pr_status_code r = 200%Z) [page "/a" 500; page "/b" 80] with
    | [] => None
    | pages => Some pages
    end.
Proof.
  apply (proj2 (non_404_pages_groups_by_status [page "/a" 500; page "/b" 80]) 200%Z).
  lia.
Defined.

Lemma lookup_finds_at_most_one_record_witness :
  matching_routes
    (loaded (save_routes_to_file [("a.js", [Route VueRoute None "/login/" "a.js"])]))
    "/login/" = [].
Proof.
  apply (proj2 (proj2 (lookup_finds_at_most_one_record
                         [("a.js", [Route VueRoute None "/login/" "a.js"])] "/login/"))).
  vm_compute. discriminate.
Defined.

Lemma shown_lines_are_lines_of_the_file_witness :
  2%Z ∈ shown_lines 3 2 10.
Proof.
  apply (proj1 (proj2 (shown_lines_are_lines_of_the_file 3 2 10))); lia.
Defined.

Lemma inventory_is_the_accepted_candidates_witness :
  normalize_path "/login/"
  ∈ rt_path <$> save_routes_to_file
                  (process_js_files [JsFile "a.js" "site/a.js" (Ok "x = '/login/'")]).
Proof.
  apply (proj2 (inventory_is_the_accepted_candidates
                  [JsFile "a.js" "site/a.js" (Ok "x = '/login/'")])
           (JsFile "a.js" "site/a.js" (Ok "x = '/login/'"))
           (Route GeneralRoute None "/login/" "site/a.js")).
  - apply list_elem_of_here.
  - vm_compute. apply list_elem_of_here.
Defined.
